(** * Home Canvas: undo/redo history and letterbox coordinate mapping

    A shallow embedding of the logic of [App.tsx] (the [App] component):
    the history handlers ([handleSceneUpload], [handleProductDrop],
    [handleUndo], [handleRedo], [handleReset], [handleChangeScene]) and the
    pointer-to-percentage computation of [handleTouchEnd].

    React state variables become fields of a record, a handler becomes a
    function from the state of the render it closes over to the next state,
    and everything the browser supplies (files, DOM rectangles, the answer
    of the compositing service, [Date.now()], [atob]) is an explicit input. *)

From Stdlib Require Import ZArith Bool List String Ascii Lia.
From Stdlib Require Import Floats.PrimFloat Floats.SpecFloat Floats.FloatOps
  Floats.FloatAxioms.
From Stdlib Require DecimalString.
Import ListNotations.

(* ================================================================= *)
(** ** JavaScript numbers *)

(** The arithmetic the coordinate computation uses: the four operations,
    the two strict comparisons and the literals [0], [2] and [100]. *)
Class JSNumber (N : Type) : Type := {
  nadd : N -> N -> N;
  nsub : N -> N -> N;
  nmul : N -> N -> N;
  ndiv : N -> N -> N;
  nlt : N -> N -> bool;
  ngt : N -> N -> bool;
  n0 : N;
  n2 : N;
  n100 : N
}.

Declare Scope js_scope.
Delimit Scope js_scope with js.
Infix "+" := nadd : js_scope.
Infix "-" := nsub : js_scope.
Infix "*" := nmul : js_scope.
Infix "/" := ndiv : js_scope.
Infix "<?" := nlt : js_scope.
Infix ">?" := ngt : js_scope.

(** IEEE 754 binary64 with round-to-nearest-even: what a JavaScript engine
    computes. *)
#[export] Instance float64 : JSNumber float := {
  nadd := PrimFloat.add;
  nsub := PrimFloat.sub;
  nmul := PrimFloat.mul;
  ndiv := PrimFloat.div;
  nlt := PrimFloat.ltb;
  ngt := fun a b => PrimFloat.ltb b a;
  n0 := 0%float;
  n2 := 2%float;
  n100 := 100%float
}.

(* ================================================================= *)
(** ** The coordinate computation of [handleTouchEnd] *)

Section CoordinateMapper.

Context {N : Type} {num : JSNumber N}.
Local Open Scope js_scope.

(** [naturalWidth], [naturalHeight] of the [img] element and [width],
    [height] of the drop zone's bounding rectangle. *)
Record Geometry : Type := {
  naturalWidth : N;
  naturalHeight : N;
  containerWidth : N;
  containerHeight : N
}.

Definition imageAspectRatio (g : Geometry) : N :=
  naturalWidth g / naturalHeight g.

Definition containerAspectRatio (g : Geometry) : N :=
  containerWidth g / containerHeight g.

(** The pair [(renderedWidth, renderedHeight)]. *)
Definition rendered (g : Geometry) : N * N :=
  if imageAspectRatio g >? containerAspectRatio g
  then (containerWidth g, containerWidth g / imageAspectRatio g)
  else (containerHeight g * imageAspectRatio g, containerHeight g).

Definition renderedWidth (g : Geometry) : N := fst (rendered g).
Definition renderedHeight (g : Geometry) : N := snd (rendered g).

Definition offsetX (g : Geometry) : N :=
  (containerWidth g - renderedWidth g) / n2.

Definition offsetY (g : Geometry) : N :=
  (containerHeight g - renderedHeight g) / n2.

Definition imageX (g : Geometry) (dropX : N) : N := dropX - offsetX g.
Definition imageY (g : Geometry) (dropY : N) : N := dropY - offsetY g.

(** The disjunction the source negates: the point lies in the letterbox
    margin. *)
Definition outsideContent (g : Geometry) (dropX dropY : N) : bool :=
  (imageX g dropX <? n0) || (imageX g dropX >? renderedWidth g)
  || (imageY g dropY <? n0) || (imageY g dropY >? renderedHeight g).

(** [Some (xPercent, yPercent)] when the drop handler is called, [None]
    when the point is ignored. *)
Definition relativePosition (g : Geometry) (dropX dropY : N)
  : option (N * N) :=
  if negb (outsideContent g dropX dropY)
  then Some (imageX g dropX / renderedWidth g * n100,
             imageY g dropY / renderedHeight g * n100)
  else None.

End CoordinateMapper.

Arguments Geometry N : clear implicits.

(* ================================================================= *)
(** ** Data model *)

(** A value that reaches a [catch] clause: an [Error] instance with its
    [message], or anything else. *)
Inductive Thrown : Type :=
| ErrorObject (message : string)
| OtherValue.

Inductive Result (A : Type) : Type :=
| Ok (a : A)
| Throw (t : Thrown).

Arguments Ok {A} a.
Arguments Throw {A} t.

(** [err instanceof Error ? err.message : 'An unknown error occurred.'] *)
Definition errorMessage (err : Thrown) : string :=
  match err with
  | ErrorObject message => message
  | OtherValue => "An unknown error occurred."
  end.

(** A [File] as the arguments of its constructor: content, name and the
    [type] option. *)
Module File.
Record t : Type := mk {
  name : string;
  type : string;
  content : string
}.

(** A character in the range U+0020 to U+007E. *)
Definition printable (c : ascii) : bool :=
  (32 <=? nat_of_ascii c)%nat && (nat_of_ascii c <=? 126)%nat.

(** An ASCII upper-case letter. *)
Definition upperCase (c : ascii) : bool :=
  (65 <=? nat_of_ascii c)%nat && (nat_of_ascii c <=? 90)%nat.

Definition lowerCase (c : ascii) : ascii :=
  if upperCase c then ascii_of_nat (nat_of_ascii c + 32) else c.

Fixpoint allPrintable (s : string) : bool :=
  match s with
  | EmptyString => true
  | String c rest => printable c && allPrintable rest
  end.

Fixpoint toLowerCase (s : string) : string :=
  match s with
  | EmptyString => EmptyString
  | String c rest => String (lowerCase c) (toLowerCase rest)
  end.

(** The [type] of the file that [new File(bits, name, {type: t})]
    creates: the empty string if [t] has a character outside U+0020 to
    U+007E, and [t] in ASCII lower case otherwise. *)
Definition typeOption (t : string) : string :=
  if allPrintable t then toLowerCase t else EmptyString.
End File.

Module Product.
Record t : Type := mk {
  id : Z;
  name : string;
  imageUrl : string
}.
End Product.

(** [{ x: number; y: number }] *)
Record Point : Type := { x : float; y : float }.

(** [{ xPercent: number; yPercent: number }] *)
Record RelativePosition : Type := { xPercent : float; yPercent : float }.

Module HistoryEntry.
Record t : Type := mk {
  sceneFile : File.t;
  persistedOrbPosition : option Point;
  debugImageUrl : option string;
  debugPrompt : option string;
  productRotation : Z
}.

(** An entry as [handleSceneUpload] creates it: no marker position and no
    debug artifact. *)
Definition raw (e : t) : Prop :=
  persistedOrbPosition e = None
  /\ debugImageUrl e = None
  /\ debugPrompt e = None.
End HistoryEntry.

(** What [generateCompositeImage] resolves to. *)
Record CompositeResult : Type := {
  finalImageUrl : string;
  resultDebugImageUrl : option string;
  finalPrompt : option string
}.

(** How the promise of [generateCompositeImage] settles. *)
Inductive Settlement : Type :=
| Fulfilled (r : CompositeResult)
| Rejected (reason : Thrown).

(** The arguments of one call of [generateCompositeImage]. *)
Record GenerateCall : Type := {
  objectImage : File.t;
  objectDescription : string;
  environmentImage : File.t;
  environmentDescription : string;
  dropPosition : RelativePosition;
  rotation : Z
}.

(** The React state of [App] that the handlers read and write.
    [loadingMessageIndex], [isDebugModalOpen] and [sceneImageUrl] only feed
    the rendering and are left out. *)
Record AppState : Type := {
  selectedProduct : option Product.t;
  productImageFile : option File.t;
  isLoading : bool;
  error : option string;
  loadingOrbPosition : option Point;
  productRotation : Z;
  history : list HistoryEntry.t;
  historyIndex : Z;
  isTouchDragging : bool;
  touchGhostPosition : option Point;
  isHoveringDropZone : bool;
  touchOrbPosition : option Point
}.

(** The [useState] initial values. *)
Definition initialState : AppState := {|
  selectedProduct := None;
  productImageFile := None;
  isLoading := false;
  error := None;
  loadingOrbPosition := None;
  productRotation := 0;
  history := [];
  historyIndex := -1;
  isTouchDragging := false;
  touchGhostPosition := None;
  isHoveringDropZone := false;
  touchOrbPosition := None
|}.

(** *** State setters *)

Definition setSelectedProduct (v : option Product.t) (s : AppState)
  : AppState :=
  {| selectedProduct := v; productImageFile := productImageFile s;
     isLoading := isLoading s; error := error s;
     loadingOrbPosition := loadingOrbPosition s;
     productRotation := productRotation s; history := history s;
     historyIndex := historyIndex s; isTouchDragging := isTouchDragging s;
     touchGhostPosition := touchGhostPosition s;
     isHoveringDropZone := isHoveringDropZone s;
     touchOrbPosition := touchOrbPosition s |}.

Definition setProductImageFile (v : option File.t) (s : AppState) : AppState :=
  {| selectedProduct := selectedProduct s; productImageFile := v;
     isLoading := isLoading s; error := error s;
     loadingOrbPosition := loadingOrbPosition s;
     productRotation := productRotation s; history := history s;
     historyIndex := historyIndex s; isTouchDragging := isTouchDragging s;
     touchGhostPosition := touchGhostPosition s;
     isHoveringDropZone := isHoveringDropZone s;
     touchOrbPosition := touchOrbPosition s |}.

Definition setIsLoading (v : bool) (s : AppState) : AppState :=
  {| selectedProduct := selectedProduct s;
     productImageFile := productImageFile s;
     isLoading := v; error := error s;
     loadingOrbPosition := loadingOrbPosition s;
     productRotation := productRotation s; history := history s;
     historyIndex := historyIndex s; isTouchDragging := isTouchDragging s;
     touchGhostPosition := touchGhostPosition s;
     isHoveringDropZone := isHoveringDropZone s;
     touchOrbPosition := touchOrbPosition s |}.

Definition setError (v : option string) (s : AppState) : AppState :=
  {| selectedProduct := selectedProduct s;
     productImageFile := productImageFile s;
     isLoading := isLoading s; error := v;
     loadingOrbPosition := loadingOrbPosition s;
     productRotation := productRotation s; history := history s;
     historyIndex := historyIndex s; isTouchDragging := isTouchDragging s;
     touchGhostPosition := touchGhostPosition s;
     isHoveringDropZone := isHoveringDropZone s;
     touchOrbPosition := touchOrbPosition s |}.

Definition setLoadingOrbPosition (v : option Point) (s : AppState) : AppState :=
  {| selectedProduct := selectedProduct s;
     productImageFile := productImageFile s;
     isLoading := isLoading s; error := error s;
     loadingOrbPosition := v;
     productRotation := productRotation s; history := history s;
     historyIndex := historyIndex s; isTouchDragging := isTouchDragging s;
     touchGhostPosition := touchGhostPosition s;
     isHoveringDropZone := isHoveringDropZone s;
     touchOrbPosition := touchOrbPosition s |}.

Definition setProductRotation (v : Z) (s : AppState) : AppState :=
  {| selectedProduct := selectedProduct s;
     productImageFile := productImageFile s;
     isLoading := isLoading s; error := error s;
     loadingOrbPosition := loadingOrbPosition s;
     productRotation := v; history := history s;
     historyIndex := historyIndex s; isTouchDragging := isTouchDragging s;
     touchGhostPosition := touchGhostPosition s;
     isHoveringDropZone := isHoveringDropZone s;
     touchOrbPosition := touchOrbPosition s |}.

Definition setHistory (v : list HistoryEntry.t) (s : AppState) : AppState :=
  {| selectedProduct := selectedProduct s;
     productImageFile := productImageFile s;
     isLoading := isLoading s; error := error s;
     loadingOrbPosition := loadingOrbPosition s;
     productRotation := productRotation s; history := v;
     historyIndex := historyIndex s; isTouchDragging := isTouchDragging s;
     touchGhostPosition := touchGhostPosition s;
     isHoveringDropZone := isHoveringDropZone s;
     touchOrbPosition := touchOrbPosition s |}.

Definition setHistoryIndex (v : Z) (s : AppState) : AppState :=
  {| selectedProduct := selectedProduct s;
     productImageFile := productImageFile s;
     isLoading := isLoading s; error := error s;
     loadingOrbPosition := loadingOrbPosition s;
     productRotation := productRotation s; history := history s;
     historyIndex := v; isTouchDragging := isTouchDragging s;
     touchGhostPosition := touchGhostPosition s;
     isHoveringDropZone := isHoveringDropZone s;
     touchOrbPosition := touchOrbPosition s |}.

Definition setIsTouchDragging (v : bool) (s : AppState) : AppState :=
  {| selectedProduct := selectedProduct s;
     productImageFile := productImageFile s;
     isLoading := isLoading s; error := error s;
     loadingOrbPosition := loadingOrbPosition s;
     productRotation := productRotation s; history := history s;
     historyIndex := historyIndex s; isTouchDragging := v;
     touchGhostPosition := touchGhostPosition s;
     isHoveringDropZone := isHoveringDropZone s;
     touchOrbPosition := touchOrbPosition s |}.

Definition setTouchGhostPosition (v : option Point) (s : AppState) : AppState :=
  {| selectedProduct := selectedProduct s;
     productImageFile := productImageFile s;
     isLoading := isLoading s; error := error s;
     loadingOrbPosition := loadingOrbPosition s;
     productRotation := productRotation s; history := history s;
     historyIndex := historyIndex s; isTouchDragging := isTouchDragging s;
     touchGhostPosition := v;
     isHoveringDropZone := isHoveringDropZone s;
     touchOrbPosition := touchOrbPosition s |}.

Definition setIsHoveringDropZone (v : bool) (s : AppState) : AppState :=
  {| selectedProduct := selectedProduct s;
     productImageFile := productImageFile s;
     isLoading := isLoading s; error := error s;
     loadingOrbPosition := loadingOrbPosition s;
     productRotation := productRotation s; history := history s;
     historyIndex := historyIndex s; isTouchDragging := isTouchDragging s;
     touchGhostPosition := touchGhostPosition s;
     isHoveringDropZone := v;
     touchOrbPosition := touchOrbPosition s |}.

Definition setTouchOrbPosition (v : option Point) (s : AppState) : AppState :=
  {| selectedProduct := selectedProduct s;
     productImageFile := productImageFile s;
     isLoading := isLoading s; error := error s;
     loadingOrbPosition := loadingOrbPosition s;
     productRotation := productRotation s; history := history s;
     historyIndex := historyIndex s; isTouchDragging := isTouchDragging s;
     touchGhostPosition := touchGhostPosition s;
     isHoveringDropZone := isHoveringDropZone s;
     touchOrbPosition := v |}.

(** Setter calls in source order: [s |> f |> g] is [g (f s)]. *)
Notation "s |> f" := (f s) (at level 45, left associativity, only parsing).

(* ================================================================= *)
(** ** JavaScript arrays and strings *)

(** [arr[i]] for an integer [i]: [undefined] out of range. *)
Definition arrayGet {A : Type} (arr : list A) (i : Z) : option A :=
  if (i <? 0)%Z then None else nth_error arr (Z.to_nat i).

(** [arr.slice(0, end)]: a negative [end] counts from the end of the
    array, and the bound is clamped to [0 .. arr.length]. *)
Definition slice0 {A : Type} (arr : list A) (end_ : Z) : list A :=
  let len := Z.of_nat (List.length arr) in
  let k := if (end_ <? 0)%Z then Z.max (len + end_) 0 else Z.min end_ len in
  firstn (Z.to_nat k) arr.

Definition arrayLength {A : Type} (arr : list A) : Z :=
  Z.of_nat (List.length arr).

(** [s.split(sep)] for a one-character separator. *)
Fixpoint stringSplit (sep : ascii) (s : string) : list string :=
  match s with
  | EmptyString => [EmptyString]
  | String c rest =>
      if Ascii.eqb c sep then EmptyString :: stringSplit sep rest
      else match stringSplit sep rest with
           | piece :: pieces => String c piece :: pieces
           | [] => [String c EmptyString]
           end
  end.

(** A line terminator, which [.] does not match.  Strings are sequences of
    8-bit characters here, so only line feed and carriage return occur. *)
Definition lineTerminator (c : ascii) : bool :=
  Ascii.eqb c "010"%char || Ascii.eqb c "013"%char.

(** [(.*?);] anchored at the head of [s]: the characters before the first
    semicolon, provided no line terminator comes before it. *)
Fixpoint lazyUntilSemicolon (s : string) : option string :=
  match s with
  | EmptyString => None
  | String c rest =>
      if Ascii.eqb c ";"%char then Some EmptyString
      else if lineTerminator c then None
      else option_map (String c) (lazyUntilSemicolon rest)
  end.

(** Capture group 1 of [s.match(/:(.*?);/)], at the leftmost colon from
    which the pattern matches; [None] when there is no match. *)
Fixpoint matchMime (s : string) : option string :=
  match s with
  | EmptyString => None
  | String c rest =>
      if Ascii.eqb c ":"%char then
        match lazyUntilSemicolon rest with
        | Some group => Some group
        | None => matchMime rest
        end
      else matchMime rest
  end.

(** The decimal rendering of an integer in a template literal. *)
Definition numberToString (n : Z) : string :=
  DecimalString.NilZero.string_of_int (Z.to_int n).

(* ================================================================= *)
(** ** Handlers *)

Section App.

(** The browser's [atob]: the decoded binary string, or the exception it
    raises on input that is not base64. *)
Variable atob : string -> Result string.

Local Open Scope string_scope.
Local Open Scope Z_scope.

(** [dataURLtoFile]: the [Uint8Array] copy of the decoded string is the
    file's content, and the [File] constructor normalises the MIME type
    it is given. *)
Definition dataURLtoFile (dataurl filename : string) : Result File.t :=
  match stringSplit ","%char dataurl with
  | head :: body :: _ =>
      match matchMime head with
      | Some (String c m) =>
          match atob body with
          | Ok bstr =>
              Ok (File.mk filename (File.typeOption (String c m)) bstr)
          | Throw t => Throw t
          end
      | _ => Throw (ErrorObject "Could not parse MIME type from data URL")
      end
  | _ => Throw (ErrorObject "Invalid data URL")
  end.

(** *** Values derived from the history on every render *)

Definition currentHistoryEntry (s : AppState) : option HistoryEntry.t :=
  arrayGet (history s) (historyIndex s).

Definition sceneImage (s : AppState) : option File.t :=
  option_map HistoryEntry.sceneFile (currentHistoryEntry s).

Definition canUndo (s : AppState) : bool := historyIndex s >? 0.

Definition canRedo (s : AppState) : bool :=
  historyIndex s <? arrayLength (history s) - 1.

(** *** Uploads and resets *)

(** The arguments beside [file] are the outcome of
    [URL.createObjectURL(file)] and the value of [Date.now()]. *)
Definition handleProductImageUpload
    (file : File.t) (objectURL : Result string) (now : Z)
    (s : AppState) : AppState :=
  let s := s |> setError None in
  match objectURL with
  | Ok imageUrl =>
      let product := Product.mk now (File.name file) imageUrl in
      s |> setProductImageFile (Some file)
        |> setSelectedProduct (Some product)
        |> setProductRotation 0
  | Throw err =>
      s |> setError
             (Some ("Could not load the product image. Details: "
                      ++ errorMessage err))
  end.

Definition handleSceneUpload (file : File.t) (s : AppState) : AppState :=
  s |> setHistory [HistoryEntry.mk file None None None 0]
    |> setHistoryIndex 0.

Definition handleReset (s : AppState) : AppState :=
  s |> setSelectedProduct None
    |> setProductImageFile None
    |> setHistory []
    |> setHistoryIndex (-1)
    |> setError None
    |> setIsLoading false
    |> setProductRotation 0.

Definition handleChangeProduct (s : AppState) : AppState :=
  s |> setSelectedProduct None
    |> setProductImageFile None
    |> setProductRotation 0.

Definition handleChangeScene (s : AppState) : AppState :=
  s |> setHistory []
    |> setHistoryIndex (-1)
    |> setProductRotation 0.

(** *** Undo and redo *)

Definition handleUndo (s : AppState) : AppState :=
  if historyIndex s >? 0
  then s |> setHistoryIndex (historyIndex s - 1)
  else s.

Definition handleRedo (s : AppState) : AppState :=
  if historyIndex s <? arrayLength (history s) - 1
  then s |> setHistoryIndex (historyIndex s + 1)
  else s.

(** *** Product drop *)

(** The three statements of [handleProductDrop] that record a new entry:
    the new [history] and the new [historyIndex]. *)
Definition append (history : list HistoryEntry.t) (historyIndex : Z)
    (newEntry : HistoryEntry.t) : list HistoryEntry.t * Z :=
  let newHistory := slice0 history (historyIndex + 1) in
  ((newHistory ++ [newEntry])%list, arrayLength newHistory).

(** What the callback closes over and still needs after the [await]:
    [history], [historyIndex] and [productRotation] of the render that
    created it, and its [position] argument. *)
Record Pending : Type := {
  closureHistory : list HistoryEntry.t;
  closureHistoryIndex : Z;
  closureProductRotation : Z;
  closurePosition : Point
}.

(** [handleProductDrop] up to the [await]: the state updates, and the
    call of [generateCompositeImage] with what the continuation keeps,
    if the guard lets it through. *)
Definition handleProductDropCall
    (position : Point) (relativePosition : RelativePosition)
    (s : AppState) : AppState * option (GenerateCall * Pending) :=
  match productImageFile s, sceneImage s, selectedProduct s with
  | Some productImageFile, Some sceneImage, Some selectedProduct =>
      (s |> setLoadingOrbPosition (Some position)
         |> setIsLoading true
         |> setError None,
       Some ({| objectImage := productImageFile;
                objectDescription := Product.name selectedProduct;
                environmentImage := sceneImage;
                environmentDescription := File.name sceneImage;
                dropPosition := relativePosition;
                rotation := productRotation s |},
             {| closureHistory := history s;
                closureHistoryIndex := historyIndex s;
                closureProductRotation := productRotation s;
                closurePosition := position |}))
  | _, _, _ =>
      (s |> setError (Some "An unexpected error occurred. Please try again."),
       None)
  end.

(** The body of the [try] block after the [await]: the new entry, or
    what was thrown. *)
Definition buildEntry (k : Pending) (settled : Settlement) (now : Z)
  : Result HistoryEntry.t :=
  match settled with
  | Rejected reason => Throw reason
  | Fulfilled r =>
      match dataURLtoFile (finalImageUrl r)
              ("generated-scene-" ++ numberToString now ++ ".jpeg") with
      | Throw t => Throw t
      | Ok newSceneFile =>
          Ok (HistoryEntry.mk newSceneFile
                (Some (closurePosition k))
                (resultDebugImageUrl r)
                (finalPrompt r)
                (closureProductRotation k))
      end
  end.

(** [handleProductDrop] from the [await] on, run on the state [s] current
    when the promise settles; [now] is the value of [Date.now()]. *)
Definition handleProductDropSettle
    (k : Pending) (settled : Settlement) (now : Z)
    (s : AppState) : AppState :=
  let s :=
    match buildEntry k settled now with
    | Ok newEntry =>
        let (newHistory, newIndex) :=
          append (closureHistory k) (closureHistoryIndex k) newEntry in
        s |> setHistory newHistory
          |> setHistoryIndex newIndex
    | Throw err =>
        s |> setError
               (Some ("Failed to generate the image. " ++ errorMessage err))
    end in
  s |> setIsLoading false
    |> setLoadingOrbPosition None.

(** One whole run of [handleProductDrop] with nothing happening during
    the [await]. *)
Definition handleProductDrop
    (position : Point) (relativePosition : RelativePosition)
    (settled : Settlement) (now : Z) (s : AppState) : AppState :=
  match handleProductDropCall position relativePosition s with
  | (s', Some (_, k)) => handleProductDropSettle k settled now s'
  | (s', None) => s'
  end.

(** Whether that run calls [generateCompositeImage]. *)
Definition generationCall
    (position : Point) (relativePosition : RelativePosition)
    (s : AppState) : option GenerateCall :=
  option_map fst (snd (handleProductDropCall position relativePosition s)).

(** *** Touch drag and drop *)

(** [clientX], [clientY] of a touch point. *)
Record Touch : Type := { clientX : float; clientY : float }.

(** The bounding rectangle of the drop zone under the touch point. *)
Record DOMRect : Type := {
  left : float;
  top : float;
  width : float;
  height : float
}.

(** [naturalWidth] and [naturalHeight] of [sceneImgRef.current]. *)
Record ImageElement : Type := {
  imgNaturalWidth : float;
  imgNaturalHeight : float
}.

Definition handleTouchStart (touch : Touch) (s : AppState) : AppState :=
  match selectedProduct s with
  | None => s
  | Some _ =>
      s |> setIsTouchDragging true
        |> setTouchGhostPosition
             (Some {| x := clientX touch; y := clientY touch |})
  end.

(** [dropZone] is the rectangle of the closest
    [data-dropzone-id="scene-uploader"] ancestor of the element under
    the touch point, if there is one. *)
Definition handleTouchMove (touch : Touch) (dropZone : option DOMRect)
    (s : AppState) : AppState :=
  if negb (isTouchDragging s) then s
  else
    let s := s |> setTouchGhostPosition
                    (Some {| x := clientX touch; y := clientY touch |}) in
    match dropZone with
    | Some rect =>
        s |> setTouchOrbPosition
               (Some {| x := (clientX touch - left rect)%float;
                        y := (clientY touch - top rect)%float |})
          |> setIsHoveringDropZone true
    | None =>
        s |> setIsHoveringDropZone false
          |> setTouchOrbPosition None
    end.

Definition touchGeometry (img : ImageElement) (containerRect : DOMRect)
  : Geometry float :=
  {| naturalWidth := imgNaturalWidth img;
     naturalHeight := imgNaturalHeight img;
     containerWidth := width containerRect;
     containerHeight := height containerRect |}.

(** [handleTouchEnd], with the part of [handleProductDrop] that runs
    before its [await]. *)
Definition handleTouchEnd
    (touch : Touch) (dropZone : option DOMRect) (img : option ImageElement)
    (s : AppState) : AppState * option (GenerateCall * Pending) :=
  if negb (isTouchDragging s) then (s, None)
  else
    let (s, call) :=
      match dropZone, img with
      | Some containerRect, Some img =>
          let dropX := (clientX touch - left containerRect)%float in
          let dropY := (clientY touch - top containerRect)%float in
          match relativePosition (touchGeometry img containerRect)
                  dropX dropY with
          | Some (xPercent, yPercent) =>
              handleProductDropCall
                {| x := dropX; y := dropY |}
                {| xPercent := xPercent; yPercent := yPercent |} s
          | None => (s, None)
          end
      | _, _ => (s, None)
      end in
    (s |> setIsTouchDragging false
       |> setTouchGhostPosition None
       |> setIsHoveringDropZone false
       |> setTouchOrbPosition None,
     call).

(* =============================================================== *)
(** ** The component as a transition system *)

(** The state of the component, the continuations of
    [handleProductDrop] waiting for their promise, and the calls of
    [generateCompositeImage] made so far (latest first). *)
Record World : Type := {
  present : AppState;
  inFlight : list Pending;
  calls : list GenerateCall
}.

Definition initialWorld : World :=
  {| present := initialState; inFlight := []; calls := [] |}.

Inductive Event : Type :=
| ProductImageUpload (file : File.t) (objectURL : Result string) (now : Z)
| SceneUpload (file : File.t)
| Reset
| ChangeProduct
| ChangeScene
| Undo
| Redo
| RotationSlider (value : Z)
| ProductDrop (position : Point) (relativePosition : RelativePosition)
| TouchStart (touch : Touch)
| TouchMove (touch : Touch) (dropZone : option DOMRect)
| TouchEnd (touch : Touch) (dropZone : option DOMRect)
           (img : option ImageElement)
| Settle (n : nat) (settled : Settlement) (now : Z).

(** The effect that follows a change of [currentHistoryEntry]:
    [setProductRotation(currentHistoryEntry.productRotation)]. *)
Definition syncRotation (s : AppState) : AppState :=
  match currentHistoryEntry s with
  | Some entry => s |> setProductRotation (HistoryEntry.productRotation entry)
  | None => s
  end.

(** The effect runs when the handler put another entry object at the
    cursor: the cursor moved, or the history was replaced. *)
Definition afterIndexChange (before after : AppState) : AppState :=
  if historyIndex before =? historyIndex after then after
  else syncRotation after.

Definition withApp (w : World) (s : AppState) : World :=
  {| present := s; inFlight := inFlight w; calls := calls w |}.

Definition withCall (w : World)
    (r : AppState * option (GenerateCall * Pending)) : World :=
  match r with
  | (s, Some (call, k)) =>
      {| present := s; inFlight := (inFlight w ++ [k])%list;
         calls := call :: calls w |}
  | (s, None) => withApp w s
  end.

Fixpoint removeNth {A : Type} (n : nat) (l : list A) : list A :=
  match n, l with
  | _, [] => []
  | O, _ :: rest => rest
  | S n, a :: rest => a :: removeNth n rest
  end.

Definition step (w : World) (ev : Event) : World :=
  let s := present w in
  match ev with
  | ProductImageUpload file objectURL now =>
      withApp w (handleProductImageUpload file objectURL now s)
  | SceneUpload file => withApp w (syncRotation (handleSceneUpload file s))
  | Reset => withApp w (handleReset s)
  | ChangeProduct => withApp w (handleChangeProduct s)
  | ChangeScene => withApp w (handleChangeScene s)
  | Undo => withApp w (afterIndexChange s (handleUndo s))
  | Redo => withApp w (afterIndexChange s (handleRedo s))
  | RotationSlider value => withApp w (setProductRotation value s)
  | ProductDrop position relativePosition =>
      withCall w (handleProductDropCall position relativePosition s)
  | TouchStart touch => withApp w (handleTouchStart touch s)
  | TouchMove touch dropZone => withApp w (handleTouchMove touch dropZone s)
  | TouchEnd touch dropZone img =>
      withCall w (handleTouchEnd touch dropZone img s)
  | Settle n settled now =>
      match nth_error (inFlight w) n with
      | None => w
      | Some k =>
          let s' := handleProductDropSettle k settled now s in
          {| present := match buildEntry k settled now with
                    | Ok _ => syncRotation s'
                    | Throw _ => s'
                    end;
             inFlight := removeNth n (inFlight w);
             calls := calls w |}
      end
  end.

(** The world after a sequence of events, oldest first. *)
Definition run (events : list Event) (w : World) : World :=
  fold_left step events w.

End App.

(* ================================================================= *)
(** ** Well-formed history logs *)

(** The cursor is [-1] on the empty log and an index of the log otherwise,
    and the first entry is a raw upload. *)
Definition logOK (h : list HistoryEntry.t) (i : Z) : Prop :=
  match h with
  | [] => i = (-1)%Z
  | first :: _ => (0 <= i < arrayLength h)%Z /\ HistoryEntry.raw first
  end.

(** A waiting continuation was created on a non-empty well-formed log. *)
Definition pendingOK (k : Pending) : Prop :=
  closureHistory k <> [] /\ logOK (closureHistory k) (closureHistoryIndex k).

Definition invariant (w : World) : Prop :=
  logOK (history (present w)) (historyIndex (present w))
  /\ Forall pendingOK (inFlight w).

(* ================================================================= *)
(** ** Sample data *)

Module Sample.

(** A stand-in for the browser's decoder: every string decodes to
    itself. *)
Definition atob (s : string) : Result string := Ok s.

Definition jpeg (name : string) : File.t :=
  File.mk name "image/jpeg" EmptyString.

Definition chair : Product.t :=
  Product.mk 1 "object.jpeg" "blob:object".

Definition uploaded : HistoryEntry.t :=
  HistoryEntry.mk (jpeg "scene.jpeg") None None None 0.

Definition placed (name : string) (px py : float) : HistoryEntry.t :=
  HistoryEntry.mk (jpeg name)
    (Some {| x := px; y := py |}) None (Some "prompt"%string) 0.

(** A session with a product, an uploaded scene and two composites, the
    cursor on the last one. *)
Definition session : AppState := {|
  selectedProduct := Some chair;
  productImageFile := Some (jpeg "object.jpeg");
  isLoading := false;
  error := None;
  loadingOrbPosition := None;
  productRotation := 0;
  history := [uploaded; placed "b.jpeg" 10 20; placed "c.jpeg" 30 40];
  historyIndex := 2;
  isTouchDragging := true;
  touchGhostPosition := None;
  isHoveringDropZone := false;
  touchOrbPosition := None
|}.

Definition composite : CompositeResult := {|
  finalImageUrl := "data:image/jpeg;base64,AAAA";
  resultDebugImageUrl := None;
  finalPrompt := Some "place the chair"%string
|}.

(** A payload [dataURLtoFile] refuses: no comma. *)
Definition malformed : CompositeResult := {|
  finalImageUrl := "not a data url";
  resultDebugImageUrl := None;
  finalPrompt := None
|}.

(** A 2:1 image in a square container of side 300. *)
Definition letterbox : Geometry float := {|
  naturalWidth := 200%float; naturalHeight := 100%float;
  containerWidth := 300%float; containerHeight := 300%float
|}.

(** The same image in a container that has no height yet. *)
Definition flatRect : DOMRect :=
  {| left := 0; top := 0; width := 300; height := 0 |}.

Definition squareRect : DOMRect :=
  {| left := 0; top := 0; width := 300; height := 300 |}.

Definition wideImage : ImageElement :=
  {| imgNaturalWidth := 200; imgNaturalHeight := 100 |}.

(** Upload a scene and a product, drop the product, let the service
    answer: a log of two entries with the cursor on the second. *)
Definition firstPlacement : list Event :=
  [ SceneUpload (jpeg "scene.jpeg");
    ProductImageUpload (jpeg "object.jpeg") (Ok "blob:object"%string) 1;
    ProductDrop {| x := 150%float; y := 75%float |}
                {| xPercent := 50%float; yPercent := 0%float |};
    Settle 0 (Fulfilled composite) 1234 ].

End Sample.

(* ================================================================= *)
(** ** What the render derives from the state *)

(** [currentHistoryEntry?.persistedOrbPosition]; [undefined] and [null]
    are both [None]. *)
Definition persistedOrbPosition (s : AppState) : option Point :=
  match currentHistoryEntry s with
  | Some entry => HistoryEntry.persistedOrbPosition entry
  | None => None
  end.

(** [currentHistoryEntry?.debugImageUrl] *)
Definition debugImageUrl (s : AppState) : option string :=
  match currentHistoryEntry s with
  | Some entry => HistoryEntry.debugImageUrl entry
  | None => None
  end.

(** The [persistedOrbPosition] prop of the scene's [ImageUploader]:
    [isLoading ? loadingOrbPosition : persistedOrbPosition]. *)
Definition displayedOrbPosition (s : AppState) : option Point :=
  if isLoading s then loadingOrbPosition s else persistedOrbPosition s.

(** The [isDropZone] prop: [!!sceneImage && !isLoading]. *)
Definition isDropZone (s : AppState) : bool :=
  match sceneImage s with
  | Some _ => negb (isLoading s)
  | None => false
  end.

(** The [showDebugButton] prop: [!!debugImageUrl && !isLoading]; the
    empty string is falsy. *)
Definition showDebugButton (s : AppState) : bool :=
  match debugImageUrl s with
  | Some (String _ _) => negb (isLoading s)
  | _ => false
  end.

(** [(canUndo || canRedo) && !isLoading], the condition under which the
    undo and redo buttons are rendered. *)
Definition showUndoRedo (s : AppState) : bool :=
  (canUndo s || canRedo s) && negb (isLoading s).

(** The three branches of [renderContent]. *)
Inductive Screen : Type :=
| ErrorScreen (message : string)
| UploadScreen
| MainScreen.

Definition renderContent (s : AppState) : Screen :=
  match error s with
  | Some (String c message) => ErrorScreen (String c message)
  | _ =>
      match productImageFile s, sceneImage s with
      | Some _, Some _ => MainScreen
      | _, _ => UploadScreen
      end
  end.

(* ================================================================= *)
(** ** Instant start *)

(** What [handleInstantStart] gets from the network: the two responses of
    the first [Promise.all] (object first), or the reason it rejected
    with; then the two blobs of the second one, or its reason. *)
Record FetchResponse : Type := { ok : bool }.

Record InstantStartInput : Type := {
  responses : Result (FetchResponse * FetchResponse);
  blobs : Result (string * string)
}.

(** The body of the [try] block up to the two [File] objects
    [(objectFile, sceneFile)]. *)
Definition fetchDefaultFiles (input : InstantStartInput)
  : Result (File.t * File.t) :=
  match responses input with
  | Throw reason => Throw reason
  | Ok (objectResponse, sceneResponse) =>
      if negb (ok objectResponse) || negb (ok sceneResponse)
      then Throw (ErrorObject "Failed to load default images")
      else
        match blobs input with
        | Throw reason => Throw reason
        | Ok (objectBlob, sceneBlob) =>
            Ok (File.mk "object.jpeg" "image/jpeg" objectBlob,
                File.mk "scene.jpeg" "image/jpeg" sceneBlob)
        end
  end.

(** [handleInstantStart] after its [await]s, on the state current then;
    [objectURL] and [now] are what [handleProductImageUpload] gets from
    [URL.createObjectURL] and [Date.now()]. *)
Definition handleInstantStartSettle
    (input : InstantStartInput) (objectURL : Result string) (now : Z)
    (s : AppState) : AppState :=
  match fetchDefaultFiles input with
  | Ok (objectFile, sceneFile) =>
      s |> handleSceneUpload sceneFile
        |> handleProductImageUpload objectFile objectURL now
  | Throw err =>
      s |> setError
             (Some ("Could not load default images. Details: "
                      ++ errorMessage err)%string)
  end.

(** One whole run of [handleInstantStart] with nothing happening during
    the [await]s. *)
Definition handleInstantStart
    (input : InstantStartInput) (objectURL : Result string) (now : Z)
    (s : AppState) : AppState :=
  s |> setError None
    |> handleInstantStartSettle input objectURL now.

(* ================================================================= *)
(** ** Loading messages *)

Definition loadingMessages : list string :=
  [ "Analyzing your product...";
    "Surveying the scene...";
    "Describing placement location with AI...";
    "Crafting the perfect composition prompt...";
    "Generating photorealistic options...";
    "Assembling the final scene..." ]%string.

(** The updater of the interval:
    [prevIndex => (prevIndex + 1) % loadingMessages.length]. *)
Definition nextLoadingMessageIndex (prevIndex : Z) : Z :=
  Z.rem (prevIndex + 1) (arrayLength loadingMessages).

(** The index after [ticks] runs of the interval, from the [0] that the
    effect sets when loading starts. *)
Definition loadingMessageIndexAfter (ticks : nat) : Z :=
  Nat.iter ticks nextLoadingMessageIndex 0%Z.

(* ================================================================= *)
(** ** Further invariants *)

(** [pieces.join(sep)] for a one-character separator. *)
Fixpoint stringJoin (sep : ascii) (pieces : list string) : string :=
  match pieces with
  | [] => EmptyString
  | [piece] => piece
  | piece :: rest => (piece ++ String sep (stringJoin sep rest))%string
  end.

(** No character of [s] satisfies [p]. *)
Fixpoint noneOf (p : ascii -> bool) (s : string) : bool :=
  match s with
  | EmptyString => true
  | String c rest => negb (p c) && noneOf p rest
  end.

(** An entry as [handleProductDrop] creates it: it has a marker
    position. *)
Definition placedEntry (e : HistoryEntry.t) : Prop :=
  HistoryEntry.persistedOrbPosition e <> None.

(** Every entry after the first was created by a drop. *)
Definition placedTail (h : list HistoryEntry.t) : Prop :=
  Forall placedEntry (tl h).

(** The product and its file are set and cleared together. *)
Definition productPaired (s : AppState) : Prop :=
  selectedProduct s = None <-> productImageFile s = None.

(** Outside a touch drag nothing of it is left on screen, and the hover
    highlight and the touch marker come together. *)
Definition touchConsistent (s : AppState) : Prop :=
  (isTouchDragging s = false ->
     touchGhostPosition s = None
     /\ isHoveringDropZone s = false
     /\ touchOrbPosition s = None)
  /\ (isHoveringDropZone s = true <-> touchOrbPosition s <> None).

Definition shapeInvariant (w : World) : Prop :=
  placedTail (history (present w))
  /\ Forall (fun k => placedTail (closureHistory k)) (inFlight w)
  /\ productPaired (present w)
  /\ touchConsistent (present w).

(** The two events that only move the cursor. *)
Definition cursorMove (ev : Event) : bool :=
  match ev with
  | Undo | Redo => true
  | _ => false
  end.

(** The character [c0], as a predicate. *)
Definition isChar (c0 : ascii) (c : ascii) : bool := Ascii.eqb c c0.

(** A character the capture group of the MIME pattern cannot hold: the
    semicolon that ends it, or a line terminator. *)
Definition endsMime (c : ascii) : bool :=
  Ascii.eqb c ";"%char || lineTerminator c.

(** The fields no history handler writes. *)
Definition sameProductAndTouch (s s' : AppState) : Prop :=
  selectedProduct s' = selectedProduct s
  /\ productImageFile s' = productImageFile s
  /\ isTouchDragging s' = isTouchDragging s
  /\ touchGhostPosition s' = touchGhostPosition s
  /\ isHoveringDropZone s' = isHoveringDropZone s
  /\ touchOrbPosition s' = touchOrbPosition s.

(** The two events that can call [generateCompositeImage]. *)
Definition dropEvent (ev : Event) : bool :=
  match ev with
  | ProductDrop _ _ | TouchEnd _ _ _ => true
  | _ => false
  end.

(** A binary64 value, as the IEEE specification describes it, that is
    greater than zero: a positive finite number or plus infinity. *)
Definition strictlyPositive (f : spec_float) : bool :=
  match f with
  | S754_infinity false | S754_finite false _ _ => true
  | _ => false
  end.

(* ================================================================= *)
(** ** Arrays *)

Section ArrayFacts.

Context {A : Type}.
Implicit Types (arr : list A) (i : Z).
Local Open Scope Z_scope.

Lemma arrayGet_nth arr i :
  0 <= i -> arrayGet arr i = nth_error arr (Z.to_nat i).
Proof.
  intros Hpos. unfold arrayGet.
  destruct (Z.ltb_spec i 0); [lia | reflexivity].
Qed.

Lemma arrayGet_defined arr i :
  0 <= i < arrayLength arr -> exists a, arrayGet arr i = Some a.
Proof.
  intros [Hpos Hlt]. rewrite arrayGet_nth by assumption.
  destruct (nth_error arr (Z.to_nat i)) as [a |] eqn:Hnth; [eauto |].
  apply nth_error_None in Hnth. unfold arrayLength in Hlt. lia.
Qed.

(** Within [-1 <= i < length], [slice(0, i + 1)] keeps exactly the
    indices [0 .. i]. *)
Lemma slice0_prefix arr i :
  -1 <= i < arrayLength arr ->
  slice0 arr (i + 1) = firstn (Z.to_nat (i + 1)) arr.
Proof.
  intros [Hlo Hhi]. unfold slice0, arrayLength in *.
  destruct (Z.ltb_spec (i + 1) 0); [lia |].
  f_equal. lia.
Qed.

Lemma slice0_length arr i :
  -1 <= i < arrayLength arr ->
  arrayLength (slice0 arr (i + 1)) = i + 1.
Proof.
  intros Hi. rewrite slice0_prefix by assumption.
  unfold arrayLength in *. rewrite length_firstn. lia.
Qed.

Lemma removeNth_Forall (P : A -> Prop) n arr :
  Forall P arr -> Forall P (removeNth n arr).
Proof.
  intros Hall. revert n.
  induction Hall as [| a rest Ha Hrest IH]; intros [| n]; simpl;
    auto using Forall_nil, Forall_cons.
Qed.

End ArrayFacts.

(* ================================================================= *)
(** ** The history log under the handlers *)

Section HistoryFacts.

Variable atob : string -> Result string.
Local Open Scope Z_scope.

Lemma logOK_nonempty h i :
  logOK h i -> h <> [] -> 0 <= i < arrayLength h.
Proof.
  destruct h as [| first rest]; simpl; intros H Hne; [congruence | tauto].
Qed.

(** [append] on a non-empty well-formed log gives a well-formed log with
    the same first entry. *)
Lemma append_logOK h i e :
  h <> [] -> logOK h i ->
  logOK (fst (append h i e)) (snd (append h i e)).
Proof.
  intros Hne Hok.
  pose proof (logOK_nonempty h i Hok Hne) as Hi.
  unfold append; cbn [fst snd].
  assert (Hrange : -1 <= i < arrayLength h) by lia.
  rewrite (slice0_length h i Hrange), (slice0_prefix h i Hrange).
  destruct h as [| first rest]; [congruence |].
  destruct Hok as [_ Hraw].
  replace (Z.to_nat (i + 1)) with (S (Z.to_nat i)) by lia.
  cbn [firstn List.app logOK]. split; [| exact Hraw].
  unfold arrayLength in *. cbn [List.length] in *.
  rewrite length_app. cbn [List.length]. rewrite length_firstn. lia.
Qed.

Lemma handleUndo_logOK s :
  logOK (history s) (historyIndex s) ->
  logOK (history (handleUndo s)) (historyIndex (handleUndo s)).
Proof.
  unfold handleUndo. intros Hok.
  destruct (Z.gtb_spec (historyIndex s) 0) as [Hgt | Hle]; [| exact Hok].
  cbn [history historyIndex setHistoryIndex].
  destruct (history s) as [| first rest]; cbn [logOK] in *; [lia |].
  destruct Hok as [Hi Hraw]. split; [lia | exact Hraw].
Qed.

Lemma handleRedo_logOK s :
  logOK (history s) (historyIndex s) ->
  logOK (history (handleRedo s)) (historyIndex (handleRedo s)).
Proof.
  unfold handleRedo. intros Hok.
  destruct (Z.ltb_spec (historyIndex s) (arrayLength (history s) - 1))
    as [Hlt | Hge]; [| exact Hok].
  cbn [history historyIndex setHistoryIndex].
  destruct (history s) as [| first rest]; cbn [logOK] in *.
  - unfold arrayLength in Hlt. cbn [List.length] in Hlt. lia.
  - destruct Hok as [Hi Hraw]. split; [lia | exact Hraw].
Qed.

Lemma syncRotation_log s :
  history (syncRotation s) = history s
  /\ historyIndex (syncRotation s) = historyIndex s.
Proof.
  unfold syncRotation. destruct (currentHistoryEntry s); split; reflexivity.
Qed.

Lemma afterIndexChange_log s s' :
  history (afterIndexChange s s') = history s'
  /\ historyIndex (afterIndexChange s s') = historyIndex s'.
Proof.
  unfold afterIndexChange.
  destruct (historyIndex s =? historyIndex s');
    [split; reflexivity | apply syncRotation_log].
Qed.

(** The synchronous part of [handleProductDrop] leaves the log alone, and
    a continuation it creates holds the log of the state it ran on, which
    is not empty. *)
Lemma handleProductDropCall_log position rel s :
  let r := handleProductDropCall position rel s in
  history (fst r) = history s
  /\ historyIndex (fst r) = historyIndex s
  /\ forall call k, snd r = Some (call, k) ->
       closureHistory k = history s
       /\ closureHistoryIndex k = historyIndex s
       /\ history s <> [].
Proof.
  unfold handleProductDropCall.
  destruct (productImageFile s) as [pf |]; cbn;
    [| repeat split; intros; discriminate].
  destruct (sceneImage s) as [sf |] eqn:Hscene; cbn;
    [| repeat split; intros; discriminate].
  destruct (selectedProduct s) as [prod |]; cbn;
    [| repeat split; intros; discriminate].
  split; [reflexivity | split; [reflexivity |]].
  intros call k Hk. inversion Hk; subst; cbn.
  split; [reflexivity | split; [reflexivity |]].
  unfold sceneImage, currentHistoryEntry in Hscene.
  intros Hempty. rewrite Hempty in Hscene.
  unfold arrayGet in Hscene.
  destruct (historyIndex s <? 0); [discriminate |].
  destruct (Z.to_nat (historyIndex s)); discriminate.
Qed.

Lemma handleTouchEnd_log touch dropZone img s :
  let r := handleTouchEnd touch dropZone img s in
  history (fst r) = history s
  /\ historyIndex (fst r) = historyIndex s
  /\ forall call k, snd r = Some (call, k) ->
       closureHistory k = history s
       /\ closureHistoryIndex k = historyIndex s
       /\ history s <> [].
Proof.
  unfold handleTouchEnd.
  destruct (negb (isTouchDragging s));
    [cbn; repeat split; intros; discriminate |].
  destruct dropZone as [rect |]; [| cbn; repeat split; intros; discriminate].
  destruct img as [img |]; [| cbn; repeat split; intros; discriminate].
  destruct (relativePosition _ _ _) as [[xp yp] |];
    [| cbn; repeat split; intros; discriminate].
  pose proof (handleProductDropCall_log
                {| x := (clientX touch - left rect)%float;
                   y := (clientY touch - top rect)%float |}
                {| xPercent := xp; yPercent := yp |} s) as Hcall.
  destruct (handleProductDropCall _ _ s) as [s' call].
  cbn in *. exact Hcall.
Qed.

(** After the [await]: the log of the continuation with the new entry,
    or the log as it is. *)
Lemma handleProductDropSettle_log k settled now s :
  let s' := handleProductDropSettle atob k settled now s in
  match buildEntry atob k settled now with
  | Ok newEntry =>
      (history s', historyIndex s')
      = append (closureHistory k) (closureHistoryIndex k) newEntry
  | Throw _ =>
      history s' = history s /\ historyIndex s' = historyIndex s
  end.
Proof.
  unfold handleProductDropSettle.
  destruct (buildEntry atob k settled now) as [newEntry | err].
  - destruct (append _ _ newEntry) as [newHistory newIndex]. reflexivity.
  - split; reflexivity.
Qed.

Lemma withCall_invariant w r :
  invariant w ->
  history (fst r) = history (present w) ->
  historyIndex (fst r) = historyIndex (present w) ->
  (forall call k, snd r = Some (call, k) ->
     closureHistory k = history (present w)
     /\ closureHistoryIndex k = historyIndex (present w)
     /\ history (present w) <> []) ->
  invariant (withCall w r).
Proof.
  intros [Hlog Hpending] Hh Hi Hk.
  destruct r as [s [[call k] |]]; cbn in *.
  - split; cbn.
    + rewrite Hh, Hi. exact Hlog.
    + apply Forall_app. split; [exact Hpending |].
      constructor; [| constructor].
      destruct (Hk call k eq_refl) as (Hkh & Hki & Hne).
      unfold pendingOK. rewrite Hkh, Hki. auto.
  - split; cbn; [rewrite Hh, Hi; exact Hlog | exact Hpending].
Qed.

Lemma step_invariant w ev : invariant w -> invariant (step atob w ev).
Proof.
  intros Hinv. pose proof Hinv as [Hlog Hpending].
  destruct ev; cbn [step].
  - (* ProductImageUpload *)
    split; [| exact Hpending]. unfold handleProductImageUpload.
    destruct objectURL; exact Hlog.
  - (* SceneUpload *)
    split; [| exact Hpending]. cbn [present withApp].
    destruct (syncRotation_log (handleSceneUpload file (present w))) as [-> ->].
    cbn. unfold arrayLength, HistoryEntry.raw. cbn. repeat split; lia.
  - split; [reflexivity | exact Hpending].
  - split; [exact Hlog | exact Hpending].
  - split; [reflexivity | exact Hpending].
  - (* Undo *)
    split; [| exact Hpending]. cbn [present withApp].
    destruct (afterIndexChange_log (present w) (handleUndo (present w)))
      as [-> ->].
    apply handleUndo_logOK, Hlog.
  - (* Redo *)
    split; [| exact Hpending]. cbn [present withApp].
    destruct (afterIndexChange_log (present w) (handleRedo (present w)))
      as [-> ->].
    apply handleRedo_logOK, Hlog.
  - split; [exact Hlog | exact Hpending].
  - (* ProductDrop *)
    apply withCall_invariant; try assumption;
      apply handleProductDropCall_log.
  - (* TouchStart *)
    split; [| exact Hpending]. cbn [present withApp]. unfold handleTouchStart.
    destruct (selectedProduct (present w)); exact Hlog.
  - (* TouchMove *)
    split; [| exact Hpending]. cbn [present withApp]. unfold handleTouchMove.
    destruct (negb (isTouchDragging (present w))); [exact Hlog |].
    destruct dropZone; exact Hlog.
  - (* TouchEnd *)
    apply withCall_invariant; try assumption; apply handleTouchEnd_log.
  - (* Settle *)
    destruct (nth_error (inFlight w) n) as [k |] eqn:Hnth; [| exact Hinv].
    split; cbn [present inFlight]; [| apply removeNth_Forall, Hpending].
    pose proof (handleProductDropSettle_log k settled now (present w)) as Hs.
    cbv zeta in Hs.
    assert (Hk : pendingOK k).
    { rewrite Forall_forall in Hpending.
      apply Hpending. eapply nth_error_In, Hnth. }
    destruct Hk as [Hne Hok].
    destruct (buildEntry atob k settled now) as [newEntry | err].
    + destruct (syncRotation_log
                  (handleProductDropSettle atob k settled now (present w)))
        as [-> ->].
      replace (history _) with (fst (append (closureHistory k)
                 (closureHistoryIndex k) newEntry))
        by (rewrite <- Hs; reflexivity).
      replace (historyIndex _) with (snd (append (closureHistory k)
                 (closureHistoryIndex k) newEntry))
        by (rewrite <- Hs; reflexivity).
      apply append_logOK; assumption.
    + destruct Hs as [-> ->]. exact Hlog.
Qed.

Lemma initialWorld_invariant : invariant initialWorld.
Proof. split; [reflexivity | constructor]. Qed.

Lemma run_invariant events w :
  invariant w -> invariant (run atob events w).
Proof.
  unfold run. revert w.
  induction events as [| ev events IH]; intros w Hinv; cbn [fold_left].
  - exact Hinv.
  - apply IH, step_invariant, Hinv.
Qed.

End HistoryFacts.

(* ================================================================= *)
(** ** History manager *)

Section HistoryManager.

Local Open Scope Z_scope.
Local Open Scope list_scope.

Lemma append_spec h i e :
  -1 <= i < arrayLength h ->
  append h i e = (firstn (Z.to_nat (i + 1)) h ++ [e], i + 1).
Proof.
  intros Hi. unfold append.
  rewrite (slice0_length h i Hi), (slice0_prefix h i Hi). reflexivity.
Qed.

Lemma arrayGet_prefix h (n : nat) (tail : list HistoryEntry.t) j :
  0 <= j < Z.of_nat n -> (n <= List.length h)%nat ->
  arrayGet (firstn n h ++ tail) j = arrayGet h j.
Proof.
  intros Hj Hn. rewrite !arrayGet_nth by lia.
  rewrite nth_error_app1 by (rewrite length_firstn; lia).
  rewrite nth_error_firstn.
  destruct (Nat.ltb_spec (Z.to_nat j) n); [reflexivity | lia].
Qed.

Lemma arrayGet_end h (n : nat) (e : HistoryEntry.t) :
  (n <= List.length h)%nat ->
  arrayGet (firstn n h ++ [e]) (Z.of_nat n) = Some e.
Proof.
  intros Hn. rewrite arrayGet_nth by lia. rewrite Nat2Z.id.
  rewrite nth_error_app2 by (rewrite length_firstn; lia).
  rewrite length_firstn.
  replace (n - Nat.min n (List.length h))%nat with 0%nat by lia.
  reflexivity.
Qed.

Lemma canRedo_at_end s :
  historyIndex s = arrayLength (history s) - 1 -> canRedo s = false.
Proof.
  intros Hend. unfold canRedo. rewrite Hend. apply Z.ltb_irrefl.
Qed.

(** A run of [handleProductDrop] whose guard passes and whose [try]
    block completes appends the new entry to the log it ran on. *)
Lemma handleProductDrop_success atob position rel settled now s call e :
  generationCall position rel s = Some call ->
  buildEntry atob
    {| closureHistory := history s;
       closureHistoryIndex := historyIndex s;
       closureProductRotation := productRotation s;
       closurePosition := position |} settled now = Ok e ->
  let s' := handleProductDrop atob position rel settled now s in
  (history s', historyIndex s') = append (history s) (historyIndex s) e.
Proof.
  unfold generationCall, handleProductDrop, handleProductDropCall.
  destruct (productImageFile s); [| discriminate].
  destruct (sceneImage s); [| discriminate].
  destruct (selectedProduct s); [| discriminate].
  intros _ Hbuild. cbn -[append handleProductDropSettle].
  match goal with
  | |- context [handleProductDropSettle atob ?k settled now ?t] =>
      pose proof (handleProductDropSettle_log atob k settled now t) as Hs
  end.
  cbv zeta in Hs. cbn [closureHistory closureHistoryIndex] in Hs.
  rewrite Hbuild in Hs. exact Hs.
Qed.

End HistoryManager.

(** C1: on a log whose cursor is [-1] or an index of it, [append] keeps
    the entries at indices [0 .. cursor], puts the new entry after them and
    moves the cursor to it, the new last index; so from entries
    [[A; B; C]] with the cursor at 2, an undo followed by a drop that
    appends [D] leaves [[A; B; D]] with the cursor at 2 and nothing to
    redo. *)
Theorem append_truncates_and_moves_cursor :
  forall (h : list HistoryEntry.t) (i : Z) (e : HistoryEntry.t),
    (-1 <= i < arrayLength h)%Z ->
    let h' := fst (append h i e) in
    let i' := snd (append h i e) in
    h' = (firstn (Z.to_nat (i + 1)) h ++ [e])%list
    /\ (forall j, (0 <= j <= i)%Z -> arrayGet h' j = arrayGet h j)
    /\ arrayGet h' (i + 1) = Some e
    /\ arrayLength h' = (i + 2)%Z
    /\ i' = (arrayLength h' - 1)%Z
    /\ (forall atob s A B C D call position rel settled now,
          history s = [A; B; C] ->
          historyIndex s = 2%Z ->
          generationCall position rel (handleUndo s) = Some call ->
          buildEntry atob
            {| closureHistory := history (handleUndo s);
               closureHistoryIndex := historyIndex (handleUndo s);
               closureProductRotation := productRotation (handleUndo s);
               closurePosition := position |} settled now = Ok D ->
          let s1 := handleUndo s in
          let s2 := handleProductDrop atob position rel settled now s1 in
          historyIndex s1 = 1%Z
          /\ history s2 = [A; B; D]
          /\ historyIndex s2 = 2%Z
          /\ canRedo s2 = false
          /\ handleRedo s2 = s2).
Proof.
  intros h i e Hi h' i'. subst h' i'.
  rewrite (append_spec h i e Hi). cbn [fst snd].
  assert (Hn : (Z.to_nat (i + 1) <= List.length h)%nat)
    by (unfold arrayLength in Hi; lia).
  assert (Hlen : arrayLength (firstn (Z.to_nat (i + 1)) h ++ [e]) = (i + 2)%Z).
  { unfold arrayLength in *. rewrite length_app, length_firstn.
    cbn [List.length]. lia. }
  split; [reflexivity |].
  split; [intros j Hj; apply arrayGet_prefix; lia |].
  split.
  { replace (i + 1)%Z with (Z.of_nat (Z.to_nat (i + 1))) at 2 by lia.
    apply arrayGet_end, Hn. }
  split; [exact Hlen |].
  split; [lia |].
  intros atob s A B C D call position rel settled now Hh Hidx Hcall Hbuild.
  pose proof (handleProductDrop_success atob position rel settled now
                (handleUndo s) call D Hcall Hbuild) as Hdrop.
  cbv zeta in Hdrop.
  set (s1 := handleUndo s) in *.
  set (s2 := handleProductDrop atob position rel settled now s1) in *.
  assert (Hs1 : history s1 = [A; B; C] /\ historyIndex s1 = 1%Z).
  { subst s1. unfold handleUndo. rewrite Hidx. cbn. auto. }
  destruct Hs1 as [Hh1 Hi1].
  rewrite Hh1, Hi1 in Hdrop. cbn in Hdrop.
  inversion Hdrop as [[Hh2 Hi2]].
  assert (Hend : canRedo s2 = false)
    by (apply canRedo_at_end; rewrite Hh2, Hi2; reflexivity).
  repeat split; try assumption.
  unfold handleRedo. unfold canRedo in Hend. rewrite Hend. reflexivity.
Qed.

(** The scenario of C1 on the sample session: undo, then a successful drop. *)
Lemma append_truncates_and_moves_cursor_witness :
  let s1 := handleUndo Sample.session in
  let s2 :=
    handleProductDrop Sample.atob
      {| x := 150%float; y := 75%float |}
      {| xPercent := 50%float; yPercent := 0%float |}
      (Fulfilled Sample.composite) 1234%Z s1 in
  historyIndex s1 = 1%Z
  /\ List.length (history s2) = 3%nat
  /\ firstn 2 (history s2) = firstn 2 (history Sample.session)
  /\ historyIndex s2 = 2%Z
  /\ canRedo s2 = false.
Proof.
  pose proof
    (append_truncates_and_moves_cursor
       (history Sample.session) 1%Z Sample.uploaded
       ltac:(unfold arrayLength; cbn; lia)) as H.
  cbv zeta in H.
  destruct H as (_ & _ & _ & _ & _ & Hscenario).
  destruct (Hscenario Sample.atob Sample.session
              _ _ _ _ _
              {| x := 150%float; y := 75%float |}
              {| xPercent := 50%float; yPercent := 0%float |}
              (Fulfilled Sample.composite) 1234%Z
              eq_refl eq_refl eq_refl eq_refl)
    as (H1 & H2 & H3 & H4 & _).
  cbv zeta. rewrite H1, H2, H3, H4. repeat split.
Defined.

(** C7: [handleUndo] moves the cursor one step back when it is above 0
    and changes nothing otherwise; [handleRedo] moves it one step forward
    when it is below the last index and changes nothing otherwise;
    [canUndo] and [canRedo] are those two tests. *)
Theorem undo_redo_step_or_noop :
  forall s : AppState,
    let i := historyIndex s in
    let last := (arrayLength (history s) - 1)%Z in
    ((0 < i)%Z ->
       handleUndo s = setHistoryIndex (i - 1) s
       /\ historyIndex (handleUndo s) = (i - 1)%Z
       /\ history (handleUndo s) = history s)
    /\ ((i <= 0)%Z -> handleUndo s = s)
    /\ ((i < last)%Z ->
          handleRedo s = setHistoryIndex (i + 1) s
          /\ historyIndex (handleRedo s) = (i + 1)%Z
          /\ history (handleRedo s) = history s)
    /\ ((last <= i)%Z -> handleRedo s = s)
    /\ (canUndo s = true <-> (0 < i)%Z)
    /\ (canRedo s = true <-> (i < last)%Z).
Proof.
  intros s i last. subst i last.
  unfold handleUndo, handleRedo, canUndo, canRedo.
  destruct (Z.gtb_spec (historyIndex s) 0) as [Hgt | Hle];
    destruct (Z.ltb_spec (historyIndex s) (arrayLength (history s) - 1))
      as [Hlt | Hge];
    repeat split; intros; try reflexivity; try lia; try discriminate.
Qed.

(** Undo at cursor 2 of the sample session, and redo refused there. *)
Lemma undo_redo_step_or_noop_witness :
  historyIndex (handleUndo Sample.session) = 1%Z
  /\ handleRedo Sample.session = Sample.session.
Proof.
  pose proof (undo_redo_step_or_noop Sample.session) as H.
  cbv zeta in H. destruct H as (Hundo & _ & _ & Hredo & _).
  split.
  - apply Hundo. reflexivity.
  - apply Hredo. discriminate.
Defined.

Lemma undo_redo_roundtrip (s : AppState) :
  (0 < historyIndex s < arrayLength (history s))%Z ->
  handleRedo (handleUndo s) = s.
Proof.
  intros [Hlo Hhi]. unfold handleUndo.
  destruct (Z.gtb_spec (historyIndex s) 0) as [_ | Hle]; [| lia].
  unfold handleRedo. cbn [history historyIndex setHistoryIndex].
  destruct (Z.ltb_spec (historyIndex s - 1) (arrayLength (history s) - 1))
    as [_ | Hge]; [| lia].
  destruct s; unfold setHistoryIndex; cbn. f_equal. lia.
Qed.

(** C10: in every state the component reaches, if the cursor is above 0
    then after [handleUndo] the cursor is strictly below the last index,
    and [handleRedo] brings the cursor, the current entry and the whole
    state back. *)
Theorem undo_then_redo_restores_cursor :
  forall (atob : string -> Result string) (events : list Event),
    let s := present (run atob events initialWorld) in
    (0 < historyIndex s)%Z ->
    (historyIndex (handleUndo s) < arrayLength (history (handleUndo s)) - 1)%Z
    /\ historyIndex (handleRedo (handleUndo s)) = historyIndex s
    /\ currentHistoryEntry (handleRedo (handleUndo s)) = currentHistoryEntry s
    /\ handleRedo (handleUndo s) = s.
Proof.
  intros atob events s Hpos.
  destruct (run_invariant atob events initialWorld initialWorld_invariant)
    as [Hlog _].
  fold s in Hlog.
  assert (Hi : (0 < historyIndex s < arrayLength (history s))%Z).
  { destruct (history s) as [| first rest]; cbn [logOK] in Hlog; [lia |].
    destruct Hlog as [Hi _]. lia. }
  rewrite (undo_redo_roundtrip s Hi).
  repeat split.
  unfold handleUndo.
  destruct (Z.gtb_spec (historyIndex s) 0); cbn; lia.
Qed.

Lemma undo_then_redo_restores_cursor_witness :
  historyIndex
    (handleRedo
       (handleUndo
          (present (run Sample.atob Sample.firstPlacement initialWorld))))
  = 1%Z.
Proof.
  pose proof (undo_then_redo_restores_cursor
                Sample.atob Sample.firstPlacement eq_refl) as H.
  destruct H as (_ & H & _). rewrite H. reflexivity.
Defined.

(** C6: after every sequence of events from the initial state, the cursor
    is [-1] and there is no current entry when the log is empty, and
    otherwise the cursor is an index of the log and the current entry is
    the entry at the cursor. *)
Theorem cursor_stays_within_log :
  forall (atob : string -> Result string) (events : list Event),
    let s := present (run atob events initialWorld) in
    match history s with
    | [] => historyIndex s = (-1)%Z /\ currentHistoryEntry s = None
    | _ :: _ =>
        (0 <= historyIndex s < arrayLength (history s))%Z
        /\ exists e,
             currentHistoryEntry s = Some e
             /\ nth_error (history s) (Z.to_nat (historyIndex s)) = Some e
    end.
Proof.
  intros atob events s.
  destruct (run_invariant atob events initialWorld initialWorld_invariant)
    as [Hlog _].
  fold s in Hlog. unfold currentHistoryEntry.
  destruct (history s) as [| first rest] eqn:Hh; cbn [logOK] in Hlog.
  - split; [exact Hlog |]. rewrite Hlog. reflexivity.
  - destruct Hlog as [Hi _]. split; [exact Hi |].
    destruct (arrayGet_defined (first :: rest) (historyIndex s) Hi)
      as [e He].
    exists e. split; [exact He |].
    rewrite <- arrayGet_nth by lia. exact He.
Qed.

(** C8: after every sequence of events from the initial state, the first
    entry of a non-empty log has no marker position, no debug image and no
    debug prompt. *)
Theorem first_entry_is_raw_upload :
  forall (atob : string -> Result string) (events : list Event)
         (first : HistoryEntry.t) (rest : list HistoryEntry.t),
    history (present (run atob events initialWorld)) = first :: rest ->
    HistoryEntry.persistedOrbPosition first = None
    /\ HistoryEntry.debugImageUrl first = None
    /\ HistoryEntry.debugPrompt first = None.
Proof.
  intros atob events first rest Hh.
  destruct (run_invariant atob events initialWorld initialWorld_invariant)
    as [Hlog _].
  rewrite Hh in Hlog. destruct Hlog as [_ Hraw]. exact Hraw.
Qed.

Lemma first_entry_is_raw_upload_witness :
  HistoryEntry.persistedOrbPosition Sample.uploaded = None
  /\ HistoryEntry.debugImageUrl Sample.uploaded = None
  /\ HistoryEntry.debugPrompt Sample.uploaded = None.
Proof.
  exact (first_entry_is_raw_upload Sample.atob
           (Sample.firstPlacement ++ [Undo]) Sample.uploaded _ eq_refl).
Defined.

(* ================================================================= *)
(** ** Failed generations and rejected drops *)

Lemma buildEntry_Ok atob k settled now e :
  buildEntry atob k settled now = Ok e ->
  exists r file,
    settled = Fulfilled r
    /\ dataURLtoFile atob (finalImageUrl r)
         ("generated-scene-" ++ numberToString now ++ ".jpeg") = Ok file.
Proof.
  unfold buildEntry. destruct settled as [r | reason]; [| discriminate].
  destruct (dataURLtoFile atob (finalImageUrl r) _) as [file | t] eqn:Hfile;
    [| discriminate].
  intros _. exists r, file. auto.
Qed.

(** C5: when the promise of [generateCompositeImage] is rejected,
    [handleProductDrop] leaves [history] and [historyIndex] as they were
    and, if the call was made, ends with the loading flag cleared and the
    error message set; the same holds for a continuation that settles on
    any later state; and the log changes only if the promise was fulfilled
    and [dataURLtoFile] accepted the payload. *)
Theorem failed_generation_leaves_history_untouched :
  forall (atob : string -> Result string) (position : Point)
         (rel : RelativePosition) (reason : Thrown) (now : Z) (s : AppState),
    let s' := handleProductDrop atob position rel (Rejected reason) now s in
    history s' = history s
    /\ historyIndex s' = historyIndex s
    /\ (forall call,
          generationCall position rel s = Some call ->
          isLoading s' = false
          /\ loadingOrbPosition s' = None
          /\ error s'
             = Some ("Failed to generate the image. "
                       ++ errorMessage reason)%string)
    /\ (forall k s0,
          let s1 := handleProductDropSettle atob k (Rejected reason) now s0 in
          history s1 = history s0
          /\ historyIndex s1 = historyIndex s0
          /\ isLoading s1 = false)
    /\ (forall settled,
          let s2 := handleProductDrop atob position rel settled now s in
          history s2 <> history s \/ historyIndex s2 <> historyIndex s ->
          exists r file,
            settled = Fulfilled r
            /\ dataURLtoFile atob (finalImageUrl r)
                 ("generated-scene-" ++ numberToString now ++ ".jpeg")
               = Ok file).
Proof.
  intros atob position rel reason now s s'.
  assert (Hcases :
    forall settled,
      let t := handleProductDrop atob position rel settled now s in
      (history t = history s /\ historyIndex t = historyIndex s)
      \/ exists e k, buildEntry atob k settled now = Ok e).
  { intros settled. unfold handleProductDrop.
    pose proof (handleProductDropCall_log position rel s) as Hcall.
    cbv zeta in Hcall.
    destruct (handleProductDropCall position rel s) as [s0 [[call k] |]];
      cbn [fst snd] in *; destruct Hcall as (Hh & Hi & _);
      [| left; auto].
    pose proof (handleProductDropSettle_log atob k settled now s0) as Hs.
    cbv zeta in Hs.
    destruct (buildEntry atob k settled now) as [e | err] eqn:Hbuild.
    - right. eauto.
    - left. destruct Hs as [-> ->]. auto. }
  assert (Hrejected :
    history s' = history s /\ historyIndex s' = historyIndex s).
  { destruct (Hcases (Rejected reason)) as [H | (e & k & Hbuild)];
      [exact H | discriminate Hbuild]. }
  destruct Hrejected as [Hh Hi].
  split; [exact Hh |]. split; [exact Hi |]. split; [| split].
  - intros call Hcall. subst s'.
    unfold generationCall, handleProductDrop in *.
    unfold handleProductDropCall in *.
    destruct (productImageFile s); [| discriminate].
    destruct (sceneImage s); [| discriminate].
    destruct (selectedProduct s); [| discriminate].
    repeat split.
  - intros k s0. repeat split.
  - intros settled s2 Hchanged.
    destruct (Hcases settled) as [[Hh2 Hi2] | (e & k & Hbuild)].
    + fold s2 in Hh2, Hi2. destruct Hchanged; congruence.
    + eapply buildEntry_Ok, Hbuild.
Qed.

(** A rejected promise, and a payload that is no data URL, on the sample
    session. *)
Lemma failed_generation_leaves_history_untouched_witness :
  history
    (handleProductDrop Sample.atob
       {| x := 150%float; y := 75%float |}
       {| xPercent := 50%float; yPercent := 0%float |}
       (Rejected (ErrorObject "quota exceeded")) 1234%Z Sample.session)
  = history Sample.session
  /\ isLoading
       (handleProductDrop Sample.atob
          {| x := 150%float; y := 75%float |}
          {| xPercent := 50%float; yPercent := 0%float |}
          (Rejected (ErrorObject "quota exceeded")) 1234%Z Sample.session)
     = false.
Proof.
  pose proof (failed_generation_leaves_history_untouched Sample.atob
                {| x := 150%float; y := 75%float |}
                {| xPercent := 50%float; yPercent := 0%float |}
                (ErrorObject "quota exceeded") 1234%Z Sample.session) as H.
  cbv zeta in H. destruct H as (Hh & _ & Hflags & _).
  split; [exact Hh |].
  destruct (Hflags _ eq_refl) as [Hloading _]. exact Hloading.
Defined.

(** C3: a touch released over the drop zone at a point whose
    image-relative coordinates compare below 0 or above the rendered size
    makes no call of [generateCompositeImage], sets no error and leaves
    the log and the loading flag as they were. *)
Theorem letterbox_drop_is_ignored :
  forall (touch : Touch) (containerRect : DOMRect) (img : ImageElement)
         (s : AppState),
    let g := touchGeometry img containerRect in
    let dropX := (clientX touch - left containerRect)%float in
    let dropY := (clientY touch - top containerRect)%float in
    (imageX g dropX <? n0)%js = true
    \/ (imageX g dropX >? renderedWidth g)%js = true
    \/ (imageY g dropY <? n0)%js = true
    \/ (imageY g dropY >? renderedHeight g)%js = true ->
    let r := handleTouchEnd touch (Some containerRect) (Some img) s in
    snd r = None
    /\ history (fst r) = history s
    /\ historyIndex (fst r) = historyIndex s
    /\ error (fst r) = error s
    /\ isLoading (fst r) = isLoading s
    /\ forall atob w,
         present w = s ->
         let w' :=
           step atob w (TouchEnd touch (Some containerRect) (Some img)) in
         calls w' = calls w /\ inFlight w' = inFlight w.
Proof.
  intros touch containerRect img s g dropX dropY Houtside r.
  assert (Hreject : relativePosition g dropX dropY = None).
  { unfold relativePosition, outsideContent.
    destruct Houtside as [H | [H | [H | H]]]; rewrite H;
      rewrite ?orb_true_r; reflexivity. }
  assert (Hr : r = (if negb (isTouchDragging s) then s
                    else s |> setIsTouchDragging false
                           |> setTouchGhostPosition None
                           |> setIsHoveringDropZone false
                           |> setTouchOrbPosition None,
                    None)).
  { subst r. unfold handleTouchEnd. fold g dropX dropY. rewrite Hreject.
    destruct (negb (isTouchDragging s)); reflexivity. }
  split; [rewrite Hr; reflexivity |].
  repeat split; try (rewrite Hr; cbn [fst];
                     destruct (negb (isTouchDragging s)); reflexivity).
  - cbn [step]. subst s. fold r. rewrite Hr. reflexivity.
  - cbn [step]. subst s. fold r. rewrite Hr. reflexivity.
Qed.

(** The point [(150, 10)] of the square container lies in the top
    margin. *)
Lemma letterbox_drop_is_ignored_witness :
  snd (handleTouchEnd {| clientX := 150; clientY := 10 |}
         (Some Sample.squareRect) (Some Sample.wideImage) Sample.session)
  = None.
Proof.
  refine (proj1 (letterbox_drop_is_ignored
                   {| clientX := 150; clientY := 10 |}
                   Sample.squareRect Sample.wideImage Sample.session _)).
  right; right; left. reflexivity.
Defined.

(* ================================================================= *)
(** ** Coordinate mapper *)

(** C2: for a point that passes the bounds test, the rendered size is the
    container width by width over image aspect ratio when the image aspect
    ratio exceeds the container's, and height times image aspect ratio by
    the container height otherwise; the offsets are half the container's
    excess; the percentages are the image-relative coordinates over the
    rendered size times 100.  In binary64, a 200 by 100 image in a 300 by
    300 container is rendered 300 by 150 at vertical offset 75, the point
    [(150, 75)] maps to [(50, 0)] and [(150, 10)] is rejected. *)
Theorem coordinate_mapper_formulas :
  forall (N : Type) (num : JSNumber N) (g : Geometry N) (dropX dropY : N),
    let iar := (naturalWidth g / naturalHeight g)%js in
    let car := (containerWidth g / containerHeight g)%js in
    let rw := if (iar >? car)%js then containerWidth g
              else (containerHeight g * iar)%js in
    let rh := if (iar >? car)%js then (containerWidth g / iar)%js
              else containerHeight g in
    let ox := ((containerWidth g - rw) / n2)%js in
    let oy := ((containerHeight g - rh) / n2)%js in
    let ix := (dropX - ox)%js in
    let iy := (dropY - oy)%js in
    (ix <? n0)%js || (ix >? rw)%js || (iy <? n0)%js || (iy >? rh)%js = false ->
    renderedWidth g = rw
    /\ renderedHeight g = rh
    /\ offsetX g = ox
    /\ offsetY g = oy
    /\ relativePosition g dropX dropY
       = Some ((ix / rw * n100)%js, (iy / rh * n100)%js)
    /\ (renderedWidth Sample.letterbox = 300
        /\ renderedHeight Sample.letterbox = 150
        /\ offsetY Sample.letterbox = 75
        /\ imageX Sample.letterbox 150 = 150
        /\ imageY Sample.letterbox 75 = 0
        /\ relativePosition Sample.letterbox 150 75 = Some (50, 0)
        /\ relativePosition Sample.letterbox 150 10 = None)%float.
Proof.
  intros N num g dropX dropY iar car rw rh ox oy ix iy Hinside.
  assert (Hrw : renderedWidth g = rw).
  { unfold renderedWidth, rendered, imageAspectRatio, containerAspectRatio.
    fold iar car. subst rw. destruct (iar >? car)%js; reflexivity. }
  assert (Hrh : renderedHeight g = rh).
  { unfold renderedHeight, rendered, imageAspectRatio, containerAspectRatio.
    fold iar car. subst rh. destruct (iar >? car)%js; reflexivity. }
  assert (Hox : offsetX g = ox) by (unfold offsetX; rewrite Hrw; reflexivity).
  assert (Hoy : offsetY g = oy) by (unfold offsetY; rewrite Hrh; reflexivity).
  repeat (split; [assumption |]).
  split.
  - unfold relativePosition, outsideContent, imageX, imageY.
    rewrite Hrw, Hrh, Hox, Hoy. fold ix iy. rewrite Hinside. reflexivity.
  - repeat split.
Qed.

Lemma coordinate_mapper_formulas_witness :
  relativePosition Sample.letterbox 150%float 75%float
  = Some (50%float, 0%float).
Proof.
  pose proof (coordinate_mapper_formulas float float64 Sample.letterbox
                150%float 75%float eq_refl) as H.
  destruct H as (_ & _ & _ & _ & H & _). exact H.
Defined.

(** C4 fails: a container 300 wide and 0 high, a touch released at
    [(150, 0)].  The rendered size is 0 by 0, the bounds test passes, both
    percentages are [0 / 0], and [generateCompositeImage] is called with
    them. *)
Lemma zero_height_container_calls_with_nan :
  relativePosition
    (touchGeometry Sample.wideImage Sample.flatRect) 150%float 0%float
  = Some (nan, nan)
  /\ exists call k,
       snd (handleTouchEnd {| clientX := 150; clientY := 0 |}
              (Some Sample.flatRect) (Some Sample.wideImage) Sample.session)
       = Some (call, k)
       /\ PrimFloat.is_nan (xPercent (dropPosition call)) = true
       /\ PrimFloat.is_nan (yPercent (dropPosition call)) = true.
Proof.
  split; [reflexivity |].
  eexists. eexists. split; [reflexivity |]. split; reflexivity.
Qed.

(** *** Containers of zero width or height, in binary64 *)

Section Binary64Facts.

Local Open Scope float_scope.

Lemma is_nan_spec (v : float) :
  is_nan v = true <-> Prim2SF v = S754_nan.
Proof.
  unfold is_nan. rewrite eqb_spec.
  destruct (Prim2SF v) as [s | s | | s m e]; cbn.
  - destruct s; split; discriminate.
  - destruct s; split; discriminate.
  - split; reflexivity.
  - unfold SFeqb, SFcompare. destruct s.
    + rewrite Z.compare_refl, Pos.compare_cont_refl. cbn. split; discriminate.
    + rewrite Z.compare_refl, Pos.compare_refl. cbn. split; discriminate.
Qed.

(** Rounding keeps the sign it is given: a product or quotient of sign
    minus is not greater than zero. *)
Lemma round_sign (m e : Z) (l : location) :
  strictlyPositive (binary_round_aux prec emax true m e l) = false.
Proof.
  unfold binary_round_aux.
  destruct (shr_fexp prec emax m e l) as [mrs' e'].
  destruct (shr_fexp prec emax _ e' loc_Exact) as [mrs'' e''].
  destruct (shr_m mrs''); try reflexivity.
  destruct (e'' <=? emax - prec)%Z; reflexivity.
Qed.

(** One axis of the bounds test against a rendered size [r] that is not
    greater than zero: a coordinate [v] with neither [v < 0] nor [v > r]
    gives the percentage NaN. *)
Lemma not_positive_nan (v r c : float) :
  strictlyPositive (Prim2SF r) = false ->
  (v <? 0) = false -> (r <? v) = false ->
  is_nan (v / r * c) = true.
Proof.
  rewrite is_nan_spec, !ltb_spec, mul_spec, div_spec.
  change (Prim2SF 0) with (S754_zero false).
  generalize (Prim2SF c). intros sc.
  destruct (Prim2SF r) as [sr | sr | | sr mr er];
    destruct (Prim2SF v) as [sv | sv | | sv mv ev];
    try (destruct sr); try (destruct sv); cbn; try discriminate;
    intros; try reflexivity; try (destruct sc as [[] | [] | | []]; reflexivity).
Qed.

(** In a container of width or height [+0] the rendered width and the
    rendered height are not both greater than zero, whatever the image. *)
Lemma rendered_not_both_positive (g : Geometry float) :
  containerWidth g = 0 \/ containerHeight g = 0 ->
  strictlyPositive (Prim2SF (renderedWidth g))
  && strictlyPositive (Prim2SF (renderedHeight g)) = false.
Proof.
  unfold renderedWidth, renderedHeight, rendered, containerAspectRatio.
  generalize (imageAspectRatio g). intros ratio Hzero.
  cbn [ngt ndiv nmul float64].
  rewrite ltb_spec, div_spec.
  destruct (SFltb _ _) eqn:Hlt; cbn [fst snd]; revert Hlt.
  - destruct Hzero as [-> | ->]; [intros _; reflexivity |].
    change (Prim2SF 0) with (S754_zero false).
    destruct (Prim2SF (containerWidth g)) as [[] | [] | | [] m e];
      cbn; try reflexivity;
      destruct (Prim2SF ratio) as [[] | [] | | [] m' e']; cbn; discriminate.
  - destruct Hzero as [-> | ->];
      [| intros _; rewrite andb_comm; reflexivity].
    rewrite mul_spec. change (Prim2SF 0) with (S754_zero false).
    destruct (Prim2SF (containerHeight g)) as [[] | [] | | [] m e];
      cbn; try reflexivity;
      destruct (Prim2SF ratio) as [[] | [] | | [] m' e']; cbn;
      try discriminate; try reflexivity; intros _;
      rewrite ?round_sign, ?andb_false_r; reflexivity.
Qed.

Lemma relativePosition_rejects (g : Geometry float) (dropX dropY : float) :
  relativePosition g dropX dropY = None
  <-> outsideContent g dropX dropY = true.
Proof.
  unfold relativePosition.
  destruct (outsideContent g dropX dropY); cbn; split;
    congruence || discriminate.
Qed.

Lemma zero_container_percent_nan (g : Geometry float) (dropX dropY : float) :
  containerWidth g = 0 \/ containerHeight g = 0 ->
  outsideContent g dropX dropY = false ->
  is_nan (imageX g dropX / renderedWidth g * 100) = true
  \/ is_nan (imageY g dropY / renderedHeight g * 100) = true.
Proof.
  intros Hzero Hinside.
  unfold outsideContent in Hinside. cbn [nlt ngt n0 float64] in Hinside.
  apply orb_false_iff in Hinside. destruct Hinside as [Hinside Hy2].
  apply orb_false_iff in Hinside. destruct Hinside as [Hinside Hy1].
  apply orb_false_iff in Hinside. destruct Hinside as [Hx1 Hx2].
  apply rendered_not_both_positive, andb_false_iff in Hzero.
  destruct Hzero as [Hwidth | Hheight].
  - left. apply not_positive_nan; assumption.
  - right. apply not_positive_nan; assumption.
Qed.

End Binary64Facts.

(** C4, amended: for a container of width or height [+0] the mapper has
    no guard.  It rejects the interaction exactly when one of its four
    bounds comparisons is true; for every other point it hands the drop
    handler [imageX / renderedWidth * 100] and [imageY / renderedHeight *
    100], and at least one of the two is NaN.  So a touch released over
    such a container while a product and a scene are set calls
    [generateCompositeImage] unless the bounds test rejects it, and every
    such call carries a NaN percentage. *)
Theorem zero_size_container_yields_nan :
  forall (touch : Touch) (containerRect : DOMRect) (img : ImageElement)
         (s : AppState),
    width containerRect = 0%float \/ height containerRect = 0%float ->
    let g := touchGeometry img containerRect in
    let dropX := (clientX touch - left containerRect)%float in
    let dropY := (clientY touch - top containerRect)%float in
    let r := handleTouchEnd touch (Some containerRect) (Some img) s in
    (relativePosition g dropX dropY = None
     <-> outsideContent g dropX dropY = true)
    /\ (outsideContent g dropX dropY = false ->
        exists xp yp,
          relativePosition g dropX dropY = Some (xp, yp)
          /\ xp = (imageX g dropX / renderedWidth g * 100)%float
          /\ yp = (imageY g dropY / renderedHeight g * 100)%float
          /\ (is_nan xp = true \/ is_nan yp = true)
          /\ (isTouchDragging s = true ->
              snd r
              = snd (handleProductDropCall
                       {| x := dropX; y := dropY |}
                       {| xPercent := xp; yPercent := yp |} s))
          /\ (isTouchDragging s = true ->
              productImageFile s <> None -> sceneImage s <> None ->
              selectedProduct s <> None ->
              exists call k, snd r = Some (call, k)))
    /\ (forall call k,
          snd r = Some (call, k) ->
          is_nan (xPercent (dropPosition call)) = true
          \/ is_nan (yPercent (dropPosition call)) = true).
Proof.
  intros touch containerRect img s Hzero g dropX dropY r.
  assert (Hzero' : containerWidth g = 0%float \/ containerHeight g = 0%float)
    by exact Hzero.
  split; [apply relativePosition_rejects |].
  assert (Hcall :
    isTouchDragging s = true ->
    forall xp yp, relativePosition g dropX dropY = Some (xp, yp) ->
      snd r = snd (handleProductDropCall
                     {| x := dropX; y := dropY |}
                     {| xPercent := xp; yPercent := yp |} s)).
  { intros Hdrag xp yp Hmap. subst r. unfold handleTouchEnd.
    rewrite Hdrag. cbn [negb]. fold g dropX dropY. rewrite Hmap.
    destruct (handleProductDropCall _ _ s) as [s' call]. reflexivity. }
  split.
  - intros Hinside.
    pose proof (zero_container_percent_nan g dropX dropY Hzero' Hinside)
      as Hnan.
    assert (Hmap : relativePosition g dropX dropY
                   = Some ((imageX g dropX / renderedWidth g * 100)%float,
                           (imageY g dropY / renderedHeight g * 100)%float)).
    { unfold relativePosition. rewrite Hinside. reflexivity. }
    eexists. eexists. split; [exact Hmap |].
    split; [reflexivity |]. split; [reflexivity |].
    split; [exact Hnan |]. split.
    + intros Hdrag. exact (Hcall Hdrag _ _ Hmap).
    + intros Hdrag Hfile Hscene Hproduct.
      rewrite (Hcall Hdrag _ _ Hmap). unfold handleProductDropCall.
      destruct (productImageFile s); [| contradiction Hfile; reflexivity].
      destruct (sceneImage s); [| contradiction Hscene; reflexivity].
      destruct (selectedProduct s); [| contradiction Hproduct; reflexivity].
      eexists. eexists. reflexivity.
  - intros call k Hr.
    destruct (isTouchDragging s) eqn:Hdrag.
    + destruct (relativePosition g dropX dropY) as [[xp yp] |] eqn:Hmap.
      * rewrite (Hcall eq_refl xp yp eq_refl) in Hr.
        assert (Hinside : outsideContent g dropX dropY = false).
        { destruct (outsideContent g dropX dropY) eqn:Hout;
            [| reflexivity].
          apply relativePosition_rejects in Hout. congruence. }
        pose proof (zero_container_percent_nan g dropX dropY Hzero' Hinside)
          as Hnan.
        unfold relativePosition in Hmap. rewrite Hinside in Hmap.
        cbn [negb] in Hmap. inversion Hmap; subst xp yp. clear Hmap.
        unfold handleProductDropCall in Hr.
        destruct (productImageFile s); [| discriminate].
        destruct (sceneImage s); [| discriminate].
        destruct (selectedProduct s); [| discriminate].
        cbn [snd] in Hr. inversion Hr; subst call k.
        cbn [dropPosition xPercent yPercent]. exact Hnan.
      * subst r. unfold handleTouchEnd in Hr. rewrite Hdrag in Hr.
        cbn [negb] in Hr. fold g dropX dropY in Hr. rewrite Hmap in Hr.
        discriminate.
    + subst r. unfold handleTouchEnd in Hr. rewrite Hdrag in Hr.
      discriminate.
Qed.

(** The container 300 wide and 0 high of the counterexample: the touch
    released at [(150, 0)] is not rejected and its call carries a NaN. *)
Lemma zero_size_container_yields_nan_witness :
  outsideContent
    (touchGeometry Sample.wideImage Sample.flatRect) 150%float 0%float
  = false
  /\ forall call k,
       snd (handleTouchEnd {| clientX := 150; clientY := 0 |}
              (Some Sample.flatRect) (Some Sample.wideImage) Sample.session)
       = Some (call, k) ->
       is_nan (xPercent (dropPosition call)) = true
       \/ is_nan (yPercent (dropPosition call)) = true.
Proof.
  split; [reflexivity |].
  exact (proj2 (proj2 (zero_size_container_yields_nan
                         {| clientX := 150; clientY := 0 |}
                         Sample.flatRect Sample.wideImage Sample.session
                         (or_intror eq_refl)))).
Defined.

(* ================================================================= *)
(** ** Shape of the reachable states *)

Ltac state_cbn :=
  cbn [setSelectedProduct setProductImageFile setIsLoading setError
       setLoadingOrbPosition setProductRotation setHistory setHistoryIndex
       setIsTouchDragging setTouchGhostPosition setIsHoveringDropZone
       setTouchOrbPosition
       selectedProduct productImageFile isLoading error loadingOrbPosition
       productRotation history historyIndex isTouchDragging
       touchGhostPosition isHoveringDropZone touchOrbPosition] in *.

Ltac keep_shape :=
  unfold productPaired, touchConsistent in *; state_cbn;
  intuition (try discriminate; try congruence).

Section ShapeFacts.

Variable atob : string -> Result string.
Local Open Scope Z_scope.

Lemma buildEntry_placed k settled now e :
  buildEntry atob k settled now = Ok e ->
  HistoryEntry.persistedOrbPosition e = Some (closurePosition k)
  /\ HistoryEntry.productRotation e = closureProductRotation k.
Proof.
  unfold buildEntry. destruct settled as [r | reason]; [| discriminate].
  destruct (dataURLtoFile atob (finalImageUrl r) _); [| discriminate].
  intros Hok. inversion Hok. split; reflexivity.
Qed.

Lemma placedTail_firstn n h : placedTail h -> placedTail (firstn n h).
Proof.
  unfold placedTail. destruct h as [| first rest]; destruct n as [| n];
    cbn [firstn tl]; intros Hall; try constructor.
  rewrite <- (firstn_skipn n rest) in Hall.
  apply Forall_app in Hall. tauto.
Qed.

Lemma placedTail_append h i e :
  placedTail h -> placedEntry e -> placedTail (fst (append h i e)).
Proof.
  intros Hh He. unfold append, slice0. cbn [fst].
  pose proof (placedTail_firstn
                (Z.to_nat (if i + 1 <? 0
                           then Z.max (Z.of_nat (List.length h) + (i + 1)) 0
                           else Z.min (i + 1) (Z.of_nat (List.length h))))
                h Hh) as Hprefix.
  destruct (firstn _ h) as [| first rest]; unfold placedTail in *;
    cbn [List.app tl] in *; [constructor |].
  apply Forall_app. split; [exact Hprefix | repeat constructor; exact He].
Qed.

Lemma sameProductAndTouch_keeps s s' :
  sameProductAndTouch s s' ->
  productPaired s -> touchConsistent s ->
  productPaired s' /\ touchConsistent s'.
Proof.
  unfold sameProductAndTouch, productPaired, touchConsistent.
  intros (-> & -> & -> & -> & -> & ->). tauto.
Qed.

Lemma syncRotation_frame s : sameProductAndTouch s (syncRotation s).
Proof.
  unfold syncRotation. destruct (currentHistoryEntry s);
    repeat split.
Qed.

Lemma sameProductAndTouch_trans s s' s'' :
  sameProductAndTouch s s' -> sameProductAndTouch s' s'' ->
  sameProductAndTouch s s''.
Proof.
  unfold sameProductAndTouch.
  intros (Ha & Hb & Hc & Hd & He & Hf) (-> & -> & -> & -> & -> & ->).
  repeat split; assumption.
Qed.

Lemma afterIndexChange_frame s s' :
  sameProductAndTouch s s' -> sameProductAndTouch s (afterIndexChange s s').
Proof.
  unfold afterIndexChange. intros Hframe.
  destruct (historyIndex s =? historyIndex s'); [exact Hframe |].
  exact (sameProductAndTouch_trans s s' _ Hframe (syncRotation_frame s')).
Qed.

Lemma handleUndo_frame s : sameProductAndTouch s (handleUndo s).
Proof. unfold handleUndo. destruct (historyIndex s >? 0); repeat split. Qed.

Lemma handleRedo_frame s : sameProductAndTouch s (handleRedo s).
Proof.
  unfold handleRedo.
  destruct (historyIndex s <? arrayLength (history s) - 1); repeat split.
Qed.

Lemma handleProductDropCall_frame position rel s :
  sameProductAndTouch s (fst (handleProductDropCall position rel s)).
Proof.
  unfold handleProductDropCall.
  destruct (productImageFile s), (sceneImage s), (selectedProduct s);
    repeat split.
Qed.

Lemma handleProductDropSettle_frame k settled now s :
  sameProductAndTouch s (handleProductDropSettle atob k settled now s).
Proof.
  unfold handleProductDropSettle.
  destruct (buildEntry atob k settled now) as [e | err];
    [destruct (append _ _ e) |]; repeat split.
Qed.

Lemma handleTouchEnd_touch touch dropZone img s :
  let s' := fst (handleTouchEnd touch dropZone img s) in
  selectedProduct s' = selectedProduct s
  /\ productImageFile s' = productImageFile s
  /\ (isTouchDragging s = false -> sameProductAndTouch s s')
  /\ (isTouchDragging s = true ->
        isTouchDragging s' = false
        /\ touchGhostPosition s' = None
        /\ isHoveringDropZone s' = false
        /\ touchOrbPosition s' = None).
Proof.
  unfold handleTouchEnd.
  destruct (isTouchDragging s) eqn:Hdrag; cbn [negb fst];
    [| repeat split; discriminate].
  match goal with
  | |- context [let (_, _) := ?r in _] =>
      assert (Hr : selectedProduct (fst r) = selectedProduct s
                   /\ productImageFile (fst r) = productImageFile s);
      [| destruct r as [s0 call]; cbn in *; destruct Hr;
         repeat split; try assumption; discriminate]
  end.
  destruct dropZone as [rect |]; [| split; reflexivity].
  destruct img as [img |]; [| split; reflexivity].
  destruct (relativePosition _ _ _) as [[xp yp] |]; [| split; reflexivity].
  match goal with
  | |- context [handleProductDropCall ?p ?r s] =>
      destruct (handleProductDropCall_frame p r s) as (Ha & Hb & _)
  end.
  split; assumption.
Qed.

Lemma handleProductImageUpload_keeps file objectURL now s :
  productPaired s -> touchConsistent s ->
  productPaired (handleProductImageUpload file objectURL now s)
  /\ touchConsistent (handleProductImageUpload file objectURL now s).
Proof.
  unfold handleProductImageUpload. destruct objectURL; keep_shape.
Qed.

Lemma handleSceneUpload_keeps file s :
  productPaired s -> touchConsistent s ->
  productPaired (handleSceneUpload file s)
  /\ touchConsistent (handleSceneUpload file s).
Proof. unfold handleSceneUpload. keep_shape. Qed.

Lemma handleReset_keeps s :
  touchConsistent s ->
  productPaired (handleReset s) /\ touchConsistent (handleReset s).
Proof. unfold handleReset. keep_shape. Qed.

Lemma handleChangeProduct_keeps s :
  touchConsistent s ->
  productPaired (handleChangeProduct s)
  /\ touchConsistent (handleChangeProduct s).
Proof. unfold handleChangeProduct. keep_shape. Qed.

Lemma handleChangeScene_keeps s :
  productPaired s -> touchConsistent s ->
  productPaired (handleChangeScene s)
  /\ touchConsistent (handleChangeScene s).
Proof. unfold handleChangeScene. keep_shape. Qed.

Lemma handleTouchStart_keeps touch s :
  productPaired s -> touchConsistent s ->
  productPaired (handleTouchStart touch s)
  /\ touchConsistent (handleTouchStart touch s).
Proof.
  unfold handleTouchStart. destruct (selectedProduct s) eqn:Hsel;
    [| tauto].
  unfold productPaired, touchConsistent in *. state_cbn. rewrite Hsel.
  intuition (try discriminate; try congruence).
Qed.

Lemma handleTouchMove_keeps touch dropZone s :
  productPaired s -> touchConsistent s ->
  productPaired (handleTouchMove touch dropZone s)
  /\ touchConsistent (handleTouchMove touch dropZone s).
Proof.
  unfold handleTouchMove. destruct (isTouchDragging s) eqn:Hdrag;
    cbn [negb]; [| tauto].
  destruct dropZone; unfold productPaired, touchConsistent in *;
    state_cbn; rewrite Hdrag;
    intuition (try discriminate; try congruence).
Qed.

Lemma handleTouchEnd_keeps touch dropZone img s :
  productPaired s -> touchConsistent s ->
  productPaired (fst (handleTouchEnd touch dropZone img s))
  /\ touchConsistent (fst (handleTouchEnd touch dropZone img s)).
Proof.
  intros Hpair Htouch.
  pose proof (handleTouchEnd_touch touch dropZone img s) as Ht.
  cbv zeta in Ht. destruct Ht as (Hsel & Hfile & Hidle & Hdragging).
  destruct (isTouchDragging s) eqn:Hdrag.
  - destruct (Hdragging eq_refl) as (Ha & Hb & Hc & Hd).
    unfold productPaired, touchConsistent in *.
    rewrite Hsel, Hfile, Ha, Hb, Hc, Hd.
    intuition (try discriminate; try congruence).
  - eapply sameProductAndTouch_keeps; [apply Hidle; reflexivity | |];
      assumption.
Qed.

Lemma withCall_shape w r :
  shapeInvariant w ->
  history (fst r) = history (present w) ->
  (forall call k, snd r = Some (call, k) ->
     closureHistory k = history (present w)) ->
  productPaired (fst r) -> touchConsistent (fst r) ->
  shapeInvariant (withCall w r).
Proof.
  intros (Hlog & Hpending & _ & _) Hh Hk Hp Ht.
  destruct r as [s' [[call k] |]]; cbn [fst snd withCall] in *;
    unfold shapeInvariant; cbn [present inFlight withApp]; rewrite Hh;
    (split; [exact Hlog |]); (split; [| split; assumption]);
    [| exact Hpending].
  apply Forall_app. split; [exact Hpending |].
  constructor; [| constructor].
  rewrite (Hk call k eq_refl). exact Hlog.
Qed.

Lemma step_shape w ev : shapeInvariant w -> shapeInvariant (step atob w ev).
Proof.
  intros Hinv. pose proof Hinv as (Hlog & Hpending & Hpair & Htouch).
  assert (Hframe :
    forall s', sameProductAndTouch (present w) s' ->
               productPaired s' /\ touchConsistent s')
    by (intros s' Hs'; eapply sameProductAndTouch_keeps; eassumption).
  destruct ev as [file objectURL now | file | | | | | | value
                  | position rel | touch | touch dropZone
                  | touch dropZone img | n settled now];
    cbn [step]; unfold shapeInvariant; cbn [present inFlight withApp].
  - (* ProductImageUpload *)
    split; [| split; [exact Hpending |]].
    + unfold handleProductImageUpload. destruct objectURL; exact Hlog.
    + apply handleProductImageUpload_keeps; assumption.
  - (* SceneUpload *)
    destruct (syncRotation_log (handleSceneUpload file (present w)))
      as [-> _].
    split; [constructor |]. split; [exact Hpending |].
    destruct (handleSceneUpload_keeps file (present w) Hpair Htouch)
      as [Hp Ht].
    exact (sameProductAndTouch_keeps _ _ (syncRotation_frame _) Hp Ht).
  - (* Reset *)
    split; [constructor |]. split; [exact Hpending |].
    apply handleReset_keeps, Htouch.
  - (* ChangeProduct *)
    split; [exact Hlog |]. split; [exact Hpending |].
    apply handleChangeProduct_keeps, Htouch.
  - (* ChangeScene *)
    split; [constructor |]. split; [exact Hpending |].
    apply handleChangeScene_keeps; assumption.
  - (* Undo *)
    destruct (afterIndexChange_log (present w) (handleUndo (present w)))
      as [-> _].
    split; [| split; [exact Hpending |]].
    + unfold handleUndo.
      destruct (historyIndex (present w) >? 0); exact Hlog.
    + apply Hframe, afterIndexChange_frame, handleUndo_frame.
  - (* Redo *)
    destruct (afterIndexChange_log (present w) (handleRedo (present w)))
      as [-> _].
    split; [| split; [exact Hpending |]].
    + unfold handleRedo.
      destruct (historyIndex (present w) <? _); exact Hlog.
    + apply Hframe, afterIndexChange_frame, handleRedo_frame.
  - (* RotationSlider *)
    split; [exact Hlog |]. split; [exact Hpending |].
    apply Hframe. repeat split.
  - (* ProductDrop *)
    pose proof (handleProductDropCall_log position rel (present w))
      as Hcall.
    cbv zeta in Hcall. destruct Hcall as (Hh & _ & Hk).
    destruct (Hframe _ (handleProductDropCall_frame position rel
                          (present w))) as [Hp Ht].
    apply withCall_shape; try assumption.
    intros call k Hsome. apply (Hk call k Hsome).
  - (* TouchStart *)
    split; [| split; [exact Hpending |]].
    + unfold handleTouchStart.
      destruct (selectedProduct (present w)); exact Hlog.
    + apply handleTouchStart_keeps; assumption.
  - (* TouchMove *)
    split; [| split; [exact Hpending |]].
    + unfold handleTouchMove.
      destruct (negb (isTouchDragging (present w))); [exact Hlog |].
      destruct dropZone; exact Hlog.
    + apply handleTouchMove_keeps; assumption.
  - (* TouchEnd *)
    pose proof (handleTouchEnd_log touch dropZone img (present w)) as Hcall.
    cbv zeta in Hcall. destruct Hcall as (Hh & _ & Hk).
    destruct (handleTouchEnd_keeps touch dropZone img (present w)
                Hpair Htouch) as [Hp Ht].
    apply withCall_shape; try assumption.
    intros call k Hsome. apply (Hk call k Hsome).
  - (* Settle *)
    destruct (nth_error (inFlight w) n) as [k |] eqn:Hnth;
      [| exact Hinv].
    assert (Hk : placedTail (closureHistory k)).
    { rewrite Forall_forall in Hpending.
      apply (Hpending k). eapply nth_error_In, Hnth. }
    pose proof (handleProductDropSettle_log atob k settled now (present w))
      as Hs.
    pose proof (handleProductDropSettle_frame k settled now (present w))
      as Hf.
    cbv zeta in Hs. cbn [present inFlight].
    destruct (Hframe _ Hf) as [Hp Ht].
    destruct (buildEntry atob k settled now) as [e | err] eqn:Hbuild.
    + destruct (syncRotation_log
                  (handleProductDropSettle atob k settled now (present w)))
        as [-> _].
      split; [| split; [apply removeNth_Forall, Hpending |]].
      * replace (history _) with (fst (append (closureHistory k)
                   (closureHistoryIndex k) e))
          by (rewrite <- Hs; reflexivity).
        apply placedTail_append; [exact Hk |].
        unfold placedEntry.
        destruct (buildEntry_placed k settled now e Hbuild) as [-> _].
        discriminate.
      * exact (sameProductAndTouch_keeps _ _ (syncRotation_frame _) Hp Ht).
    + destruct Hs as [-> _].
      split; [exact Hlog |].
      split; [apply removeNth_Forall, Hpending | split; assumption].
Qed.

Lemma initialWorld_shape : shapeInvariant initialWorld.
Proof.
  unfold shapeInvariant, placedTail, productPaired, touchConsistent. cbn.
  repeat split; try constructor; try discriminate; congruence.
Qed.

Lemma run_shape events w :
  shapeInvariant w -> shapeInvariant (run atob events w).
Proof.
  unfold run. revert w.
  induction events as [| ev events IH]; intros w Hinv; cbn [fold_left].
  - exact Hinv.
  - apply IH, step_shape, Hinv.
Qed.

End ShapeFacts.

(* ================================================================= *)
(** ** Further properties of the history *)

Lemma reachable_log atob events :
  let s := present (run atob events initialWorld) in
  logOK (history s) (historyIndex s) /\ placedTail (history s).
Proof.
  split.
  - apply (run_invariant atob events initialWorld initialWorld_invariant).
  - apply (run_shape atob events initialWorld initialWorld_shape).
Qed.



Lemma handleUndo_cursor s :
  historyIndex (handleUndo s)
  = (if (historyIndex s >? 0)%Z then historyIndex s - 1 else historyIndex s)%Z
  /\ history (handleUndo s) = history s.
Proof.
  unfold handleUndo. destruct (historyIndex s >? 0)%Z; split; reflexivity.
Qed.

Lemma handleRedo_cursor s :
  historyIndex (handleRedo s)
  = (if (historyIndex s <? arrayLength (history s) - 1)%Z
     then historyIndex s + 1 else historyIndex s)%Z
  /\ history (handleRedo s) = history s.
Proof.
  unfold handleRedo.
  destruct (historyIndex s <? arrayLength (history s) - 1)%Z;
    split; reflexivity.
Qed.

Lemma iter_handleUndo n s :
  (0 <= historyIndex s)%Z ->
  historyIndex (Nat.iter n handleUndo s)
  = Z.max (historyIndex s - Z.of_nat n) 0
  /\ history (Nat.iter n handleUndo s) = history s.
Proof.
  intros Hi. induction n as [| n [IHi IHh]].
  - split; [cbn; lia | reflexivity].
  - rewrite Nat.iter_succ.
    destruct (handleUndo_cursor (Nat.iter n handleUndo s)) as [-> ->].
    rewrite IHi, IHh. split; [| reflexivity].
    destruct (Z.gtb_spec (Z.max (historyIndex s - Z.of_nat n) 0) 0); lia.
Qed.

Lemma iter_handleRedo n s :
  (historyIndex s < arrayLength (history s))%Z ->
  historyIndex (Nat.iter n handleRedo s)
  = Z.min (historyIndex s + Z.of_nat n) (arrayLength (history s) - 1)
  /\ history (Nat.iter n handleRedo s) = history s.
Proof.
  intros Hi. induction n as [| n [IHi IHh]].
  - split; [cbn; lia | reflexivity].
  - rewrite Nat.iter_succ.
    destruct (handleRedo_cursor (Nat.iter n handleRedo s)) as [-> ->].
    rewrite IHi, IHh. split; [| reflexivity].
    destruct (Z.ltb_spec
                (Z.min (historyIndex s + Z.of_nat n)
                   (arrayLength (history s) - 1))
                (arrayLength (history s) - 1)); lia.
Qed.

(** X2: on a log whose cursor is one of its indices, [n] undos in a row
    put the cursor at [max (cursor - n) 0] and [n] redos in a row at
    [min (cursor + n) (length - 1)]; neither changes the entries. *)
Theorem repeated_undo_redo_clamp :
  forall (s : AppState) (n : nat),
    (0 <= historyIndex s < arrayLength (history s))%Z ->
    historyIndex (Nat.iter n handleUndo s)
    = Z.max (historyIndex s - Z.of_nat n) 0
    /\ history (Nat.iter n handleUndo s) = history s
    /\ historyIndex (Nat.iter n handleRedo s)
       = Z.min (historyIndex s + Z.of_nat n) (arrayLength (history s) - 1)
    /\ history (Nat.iter n handleRedo s) = history s.
Proof.
  intros s n [Hlo Hhi].
  destruct (iter_handleUndo n s Hlo) as [Hu1 Hu2].
  destruct (iter_handleRedo n s Hhi) as [Hr1 Hr2].
  repeat split; assumption.
Qed.

Lemma repeated_undo_redo_clamp_witness :
  historyIndex (Nat.iter 5 handleUndo Sample.session) = 0%Z
  /\ historyIndex (Nat.iter 5 handleRedo (handleUndo Sample.session)) = 2%Z.
Proof.
  assert (H2 : (0 <= 2 < 3)%Z) by lia.
  assert (H1 : (0 <= 1 < 3)%Z) by lia.
  destruct (repeated_undo_redo_clamp Sample.session 5 H2) as (Hu & _).
  destruct (repeated_undo_redo_clamp (handleUndo Sample.session) 5 H1)
    as (_ & _ & Hr & _).
  rewrite Hu, Hr. split; reflexivity.
Defined.

(** X3: in every state the component reaches with a non-empty log, as
    many undos as the cursor is high (or more) lead to the uploaded
    scene: the cursor is 0, the current entry is the first entry, nothing
    is left to undo, and the entry carries no marker and no debug image,
    so that with the loading flag down no marker and no debug button are
    shown. *)
Theorem undo_all_the_way_shows_upload :
  forall (atob : string -> Result string) (events : list Event) (n : nat)
         (first : HistoryEntry.t) (rest : list HistoryEntry.t),
    let s := present (run atob events initialWorld) in
    history s = first :: rest ->
    (historyIndex s <= Z.of_nat n)%Z ->
    let s' := Nat.iter n handleUndo s in
    historyIndex s' = 0%Z
    /\ history s' = history s
    /\ currentHistoryEntry s' = Some first
    /\ canUndo s' = false
    /\ persistedOrbPosition s' = None
    /\ showDebugButton s' = false.
Proof.
  intros atob events n first rest s Hh Hn s'.
  destruct (reachable_log atob events) as [Hlog _]. fold s in Hlog.
  rewrite Hh in Hlog. destruct Hlog as [Hi (Hmarker & Hdebug & _)].
  destruct (iter_handleUndo n s (proj1 Hi)) as [Hidx Hhist].
  fold s' in Hidx, Hhist.
  assert (Hzero : historyIndex s' = 0%Z) by lia.
  assert (Hcur : currentHistoryEntry s' = Some first).
  { unfold currentHistoryEntry. rewrite Hzero, Hhist, Hh. reflexivity. }
  repeat split; try assumption.
  - unfold canUndo. rewrite Hzero. reflexivity.
  - unfold persistedOrbPosition. rewrite Hcur. exact Hmarker.
  - unfold showDebugButton, debugImageUrl. rewrite Hcur, Hdebug.
    reflexivity.
Qed.

Lemma undo_all_the_way_shows_upload_witness :
  currentHistoryEntry
    (Nat.iter 3 handleUndo
       (present (run Sample.atob Sample.firstPlacement initialWorld)))
  = Some Sample.uploaded.
Proof.
  assert (Hh :
    history (present (run Sample.atob Sample.firstPlacement initialWorld))
    = Sample.uploaded
      :: tl (history
               (present (run Sample.atob Sample.firstPlacement
                           initialWorld))))
    by (vm_compute; reflexivity).
  assert (Hn :
    (historyIndex
       (present (run Sample.atob Sample.firstPlacement initialWorld))
     <= Z.of_nat 3)%Z)
    by (vm_compute; discriminate).
  pose proof (undo_all_the_way_shows_upload Sample.atob
                Sample.firstPlacement 3 Sample.uploaded _ Hh Hn) as H.
  cbv zeta in H. destruct H as (_ & _ & H & _). exact H.
Defined.

(** X4: a sequence of undos and redos, however long, leaves the entries
    of the log, the waiting continuations and the calls made as they
    were, and every state field other than the cursor and the rotation
    that follows it. *)
Theorem undo_redo_never_touch_entries :
  forall (atob : string -> Result string) (events : list Event) (w : World),
    forallb cursorMove events = true ->
    let w' := run atob events w in
    history (present w') = history (present w)
    /\ inFlight w' = inFlight w
    /\ calls w' = calls w
    /\ error (present w') = error (present w)
    /\ isLoading (present w') = isLoading (present w)
    /\ selectedProduct (present w') = selectedProduct (present w)
    /\ productImageFile (present w') = productImageFile (present w).
Proof.
  intros atob events. unfold run.
  induction events as [| ev events IH]; intros w Hall; cbn [fold_left].
  - repeat split.
  - cbn [forallb] in Hall. apply andb_true_iff in Hall.
    destruct Hall as [Hev Hall].
    specialize (IH (step atob w ev) Hall). cbv zeta in IH.
    destruct IH as (-> & -> & -> & -> & -> & -> & ->).
    assert (Hmove :
      forall s',
        history s' = history (present w) ->
        error s' = error (present w) ->
        isLoading s' = isLoading (present w) ->
        selectedProduct s' = selectedProduct (present w) ->
        productImageFile s' = productImageFile (present w) ->
        let t := afterIndexChange (present w) s' in
        history t = history (present w)
        /\ error t = error (present w)
        /\ isLoading t = isLoading (present w)
        /\ selectedProduct t = selectedProduct (present w)
        /\ productImageFile t = productImageFile (present w)).
    { intros s' H1 H2 H3 H4 H5. unfold afterIndexChange, syncRotation.
      destruct (historyIndex (present w) =? historyIndex s')%Z;
        [| destruct (currentHistoryEntry s')]; cbn; auto. }
    destruct ev; try discriminate Hev;
      cbn [step present inFlight calls withApp].
    + unfold handleUndo.
      destruct (historyIndex (present w) >? 0)%Z;
        match goal with
        | |- context [afterIndexChange _ ?s'] =>
            destruct (Hmove s' eq_refl eq_refl eq_refl eq_refl eq_refl)
              as (H1 & H2 & H3 & H4 & H5)
        end; repeat split; assumption.
    + unfold handleRedo.
      destruct (historyIndex (present w) <? _)%Z;
        match goal with
        | |- context [afterIndexChange _ ?s'] =>
            destruct (Hmove s' eq_refl eq_refl eq_refl eq_refl eq_refl)
              as (H1 & H2 & H3 & H4 & H5)
        end; repeat split; assumption.
Qed.

Lemma undo_redo_never_touch_entries_witness :
  history
    (present
       (run Sample.atob [Undo; Undo; Redo; Undo; Redo; Redo; Redo]
          {| present := Sample.session; inFlight := []; calls := [] |}))
  = history Sample.session.
Proof.
  exact (proj1 (undo_redo_never_touch_entries Sample.atob
                  [Undo; Undo; Redo; Undo; Redo; Redo; Redo]
                  {| present := Sample.session; inFlight := [];
                     calls := [] |}
                  eq_refl)).
Defined.

(** X5: in every state the component reaches, every entry of the log
    after the first has a marker position; so, with the loading flag
    down, the scene shows a marker exactly when the cursor is above 0. *)
Theorem marker_shown_iff_cursor_above_zero :
  forall (atob : string -> Result string) (events : list Event),
    let s := present (run atob events initialWorld) in
    (forall i e,
       (0 < i)%Z -> arrayGet (history s) i = Some e ->
       HistoryEntry.persistedOrbPosition e <> None)
    /\ (isLoading s = false ->
        (displayedOrbPosition s <> None <-> (0 < historyIndex s)%Z)).
Proof.
  intros atob events s.
  destruct (reachable_log atob events) as [Hlog Htail].
  fold s in Hlog, Htail.
  assert (Hentries :
    forall i e,
      (0 < i)%Z -> arrayGet (history s) i = Some e ->
      HistoryEntry.persistedOrbPosition e <> None).
  { intros i e Hi Hget. rewrite arrayGet_nth in Hget by lia.
    unfold placedTail in Htail. rewrite Forall_forall in Htail.
    apply (Htail e).
    destruct (history s) as [| first rest];
      [destruct (Z.to_nat i); discriminate |].
    replace (Z.to_nat i) with (S (Z.to_nat (i - 1))) in Hget by lia.
    cbn in *. eapply nth_error_In, Hget. }
  split; [exact Hentries |].
  intros Hidle. unfold displayedOrbPosition, persistedOrbPosition.
  rewrite Hidle. unfold currentHistoryEntry.
  destruct (history s) as [| first rest] eqn:Hh; cbn [logOK] in Hlog.
  - rewrite Hlog. cbn. split; [congruence | lia].
  - destruct Hlog as [Hi (Hmarker & _)].
    destruct (arrayGet_defined (first :: rest) (historyIndex s) Hi)
      as [e He].
    rewrite He. split.
    + intros Hshown.
      destruct (Z.eq_dec (historyIndex s) 0) as [Hzero | Hnz]; [| lia].
      rewrite Hzero in He. cbn in He. inversion He; subst e.
      contradiction.
    + intros Hpos. exact (Hentries _ e Hpos He).
Qed.

Lemma marker_shown_iff_cursor_above_zero_witness :
  displayedOrbPosition
    (present (run Sample.atob Sample.firstPlacement initialWorld))
  <> None.
Proof.
  apply (proj2 (marker_shown_iff_cursor_above_zero Sample.atob
                  Sample.firstPlacement) eq_refl).
  reflexivity.
Defined.

(* ================================================================= *)
(** ** Screens and errors *)

(** X6: in every state the component reaches, the product and its file
    are set or unset together; so whenever the render reaches its main
    branch the selected product is there (the [selectedProduct!] of the
    JSX holds), the guard of [handleProductDrop] passes, and a drop calls
    [generateCompositeImage] with the current entry's scene file. *)
Theorem main_screen_has_product_and_scene :
  forall (atob : string -> Result string) (events : list Event)
         (position : Point) (rel : RelativePosition),
    let s := present (run atob events initialWorld) in
    (selectedProduct s = None <-> productImageFile s = None)
    /\ (renderContent s = MainScreen ->
        exists product file entry call,
          selectedProduct s = Some product
          /\ productImageFile s = Some file
          /\ currentHistoryEntry s = Some entry
          /\ generationCall position rel s = Some call
          /\ objectImage call = file
          /\ objectDescription call = Product.name product
          /\ environmentImage call = HistoryEntry.sceneFile entry
          /\ rotation call = productRotation s).
Proof.
  intros atob events position rel s.
  destruct (run_shape atob events initialWorld initialWorld_shape)
    as (_ & _ & Hpair & _).
  fold s in Hpair. split; [exact Hpair |].
  unfold renderContent, generationCall, handleProductDropCall, sceneImage.
  destruct (error s) as [[| c message] |]; try discriminate;
    (destruct (productImageFile s) as [file |] eqn:Hfile;
       [| discriminate]);
    (destruct (currentHistoryEntry s) as [entry |]; [| discriminate]);
    (destruct (selectedProduct s) as [product |] eqn:Hsel;
       [| exfalso; unfold productPaired in Hpair; rewrite Hfile in Hpair;
          destruct Hpair as [Hpair _]; specialize (Hpair Hsel);
          discriminate]);
    intros _; cbn; eexists; eexists; eexists; eexists;
    repeat split; reflexivity.
Qed.

Lemma main_screen_has_product_and_scene_witness :
  exists call,
    generationCall {| x := 1%float; y := 2%float |}
      {| xPercent := 3%float; yPercent := 4%float |}
      (present (run Sample.atob Sample.firstPlacement initialWorld))
    = Some call.
Proof.
  destruct (proj2 (main_screen_has_product_and_scene Sample.atob
                     Sample.firstPlacement
                     {| x := 1%float; y := 2%float |}
                     {| xPercent := 3%float; yPercent := 4%float |})
              eq_refl)
    as (product & file & entry & call & _ & _ & _ & Hcall & _).
  exists call. exact Hcall.
Defined.

(** X7: a drop on a state without product file, without current scene or
    without selected product calls nothing, leaves the log and the
    loading flag as they were, and puts the render on the error screen
    with the message "An unexpected error occurred. Please try again." *)
Theorem drop_without_product_or_scene :
  forall (atob : string -> Result string) (position : Point)
         (rel : RelativePosition) (settled : Settlement) (now : Z)
         (s : AppState),
    productImageFile s = None \/ sceneImage s = None
    \/ selectedProduct s = None ->
    let s' := handleProductDrop atob position rel settled now s in
    generationCall position rel s = None
    /\ history s' = history s
    /\ historyIndex s' = historyIndex s
    /\ isLoading s' = isLoading s
    /\ loadingOrbPosition s' = loadingOrbPosition s
    /\ renderContent s'
       = ErrorScreen "An unexpected error occurred. Please try again.".
Proof.
  intros atob position rel settled now s Hmissing s'. subst s'.
  unfold generationCall, handleProductDrop, handleProductDropCall.
  destruct (productImageFile s) as [file |];
    destruct (sceneImage s) as [scene |];
    destruct (selectedProduct s) as [product |];
    try (destruct Hmissing as [H | [H | H]]; discriminate H);
    repeat split.
Qed.

Lemma drop_without_product_or_scene_witness :
  renderContent
    (handleProductDrop Sample.atob
       {| x := 1%float; y := 2%float |}
       {| xPercent := 3%float; yPercent := 4%float |}
       (Fulfilled Sample.composite) 1234%Z initialState)
  = ErrorScreen "An unexpected error occurred. Please try again.".
Proof.
  pose proof (drop_without_product_or_scene Sample.atob
                {| x := 1%float; y := 2%float |}
                {| xPercent := 3%float; yPercent := 4%float |}
                (Fulfilled Sample.composite) 1234%Z initialState
                (or_introl eq_refl)) as H.
  cbv zeta in H. destruct H as (_ & _ & _ & _ & _ & H). exact H.
Defined.

(** X8: when the generation fails (the promise is rejected or the
    payload is no data URL with a MIME type), the render switches to the
    error screen with "Failed to generate the image." and the error's
    message, although the log is intact; [handleReset], the handler of
    that screen's button, then empties the log, removes the product and
    the error and leads to the upload screen. *)
Theorem failed_generation_shows_error_then_reset_wipes :
  forall (atob : string -> Result string) (position : Point)
         (rel : RelativePosition) (settled : Settlement) (now : Z)
         (s : AppState) (call : GenerateCall) (err : Thrown),
    generationCall position rel s = Some call ->
    buildEntry atob
      {| closureHistory := history s;
         closureHistoryIndex := historyIndex s;
         closureProductRotation := productRotation s;
         closurePosition := position |} settled now = Throw err ->
    let s' := handleProductDrop atob position rel settled now s in
    history s' = history s
    /\ historyIndex s' = historyIndex s
    /\ renderContent s'
       = ErrorScreen ("Failed to generate the image. " ++ errorMessage err)
    /\ history (handleReset s') = []
    /\ historyIndex (handleReset s') = (-1)%Z
    /\ selectedProduct (handleReset s') = None
    /\ productImageFile (handleReset s') = None
    /\ renderContent (handleReset s') = UploadScreen.
Proof.
  intros atob position rel settled now s call err Hcall Hbuild s'. subst s'.
  unfold generationCall, handleProductDrop, handleProductDropCall in *.
  destruct (productImageFile s) as [file |]; [| discriminate].
  destruct (sceneImage s) as [scene |]; [| discriminate].
  destruct (selectedProduct s) as [product |]; [| discriminate].
  cbn [fst snd] in *. unfold handleProductDropSettle.
  cbn [closureHistory closureHistoryIndex history historyIndex
       setError setIsLoading setLoadingOrbPosition productRotation] in *.
  rewrite Hbuild. repeat split.
Qed.

Lemma failed_generation_shows_error_then_reset_wipes_witness :
  renderContent
    (handleProductDrop Sample.atob
       {| x := 150%float; y := 75%float |}
       {| xPercent := 50%float; yPercent := 0%float |}
       (Fulfilled Sample.malformed) 1234%Z Sample.session)
  = ErrorScreen "Failed to generate the image. Invalid data URL".
Proof.
  pose proof (failed_generation_shows_error_then_reset_wipes Sample.atob
                {| x := 150%float; y := 75%float |}
                {| xPercent := 50%float; yPercent := 0%float |}
                (Fulfilled Sample.malformed) 1234%Z Sample.session
                _ (ErrorObject "Invalid data URL") eq_refl eq_refl) as H.
  cbv zeta in H. destruct H as (_ & _ & H & _). exact H.
Defined.

(* ================================================================= *)
(** ** Drops and their continuations *)

Section DropFacts.

Variable atob : string -> Result string.
Local Open Scope Z_scope.

Lemma arrayGet_last {A : Type} (l : list A) (a : A) :
  arrayGet (l ++ [a]) (arrayLength l) = Some a.
Proof.
  unfold arrayLength. rewrite arrayGet_nth by lia. rewrite Nat2Z.id.
  rewrite nth_error_app2 by lia. rewrite Nat.sub_diag. reflexivity.
Qed.

(** A settling continuation whose [try] block completes. *)
Lemma settle_success w n k settled now e :
  nth_error (inFlight w) n = Some k ->
  buildEntry atob k settled now = Ok e ->
  let w' := step atob w (Settle n settled now) in
  history (present w')
  = (slice0 (closureHistory k) (closureHistoryIndex k + 1) ++ [e])%list
  /\ historyIndex (present w')
     = arrayLength (slice0 (closureHistory k) (closureHistoryIndex k + 1))
  /\ currentHistoryEntry (present w') = Some e
  /\ productRotation (present w') = closureProductRotation k
  /\ isLoading (present w') = false
  /\ loadingOrbPosition (present w') = None
  /\ error (present w') = error (present w)
  /\ selectedProduct (present w') = selectedProduct (present w)
  /\ productImageFile (present w') = productImageFile (present w)
  /\ inFlight w' = removeNth n (inFlight w)
  /\ calls w' = calls w.
Proof.
  intros Hnth Hbuild. cbn [step]. rewrite Hnth, Hbuild. cbv zeta.
  cbn [present inFlight calls].
  unfold handleProductDropSettle. rewrite Hbuild. unfold append.
  assert (Hcur :
    forall s,
      currentHistoryEntry
        (s |> setHistory
                (slice0 (closureHistory k) (closureHistoryIndex k + 1)
                 ++ [e])%list
           |> setHistoryIndex
                (arrayLength
                   (slice0 (closureHistory k) (closureHistoryIndex k + 1)))
           |> setIsLoading false
           |> setLoadingOrbPosition None)
      = Some e).
  { intros s. unfold currentHistoryEntry. state_cbn. apply arrayGet_last. }
  unfold syncRotation. rewrite Hcur.
  destruct (buildEntry_placed atob k settled now e Hbuild) as [_ Hrot].
  state_cbn. rewrite Hrot.
  repeat split. unfold currentHistoryEntry. state_cbn. apply arrayGet_last.
Qed.

(** A touch drag released over the drop zone inside the image content,
    with product and scene present. *)
Lemma touch_drop w touch rect img xp yp file scene product :
  productImageFile (present w) = Some file ->
  sceneImage (present w) = Some scene ->
  selectedProduct (present w) = Some product ->
  relativePosition (touchGeometry img rect)
    (clientX touch - left rect)%float (clientY touch - top rect)%float
  = Some (xp, yp) ->
  let dropPoint := {| x := (clientX touch - left rect)%float;
                      y := (clientY touch - top rect)%float |} in
  let w' := step atob (step atob w (TouchStart touch))
              (TouchEnd touch (Some rect) (Some img)) in
  inFlight w'
  = (inFlight w
     ++ [{| closureHistory := history (present w);
            closureHistoryIndex := historyIndex (present w);
            closureProductRotation := productRotation (present w);
            closurePosition := dropPoint |}])%list
  /\ calls w'
     = {| objectImage := file;
          objectDescription := Product.name product;
          environmentImage := scene;
          environmentDescription := File.name scene;
          dropPosition := {| xPercent := xp; yPercent := yp |};
          rotation := productRotation (present w) |} :: calls w
  /\ history (present w') = history (present w)
  /\ historyIndex (present w') = historyIndex (present w)
  /\ productRotation (present w') = productRotation (present w)
  /\ productImageFile (present w') = Some file
  /\ selectedProduct (present w') = Some product
  /\ isLoading (present w') = true
  /\ error (present w') = None
  /\ loadingOrbPosition (present w') = Some dropPoint
  /\ isTouchDragging (present w') = false.
Proof.
  intros Hfile Hscene Hsel Hrel dropPoint w'. subst w' dropPoint.
  cbn [step]. unfold handleTouchStart. rewrite Hsel.
  cbn [present withApp inFlight calls].
  unfold handleTouchEnd. state_cbn. cbn [negb]. rewrite Hrel.
  unfold handleProductDropCall, sceneImage, currentHistoryEntry in *.
  state_cbn. rewrite Hfile, Hsel.
  destruct (arrayGet (history (present w)) (historyIndex (present w)))
    as [entry |]; [| discriminate].
  cbn [option_map] in *. inversion Hscene; subst scene.
  cbn [withCall present inFlight calls]. state_cbn.
  repeat split; assumption.
Qed.

End DropFacts.

(** X9: a touch drag of the product released over the drop zone at a
    point the mapper accepts, with product and scene present, calls
    [generateCompositeImage] once, with the current entry's scene file,
    the product's file and name, the two percentages and the current
    rotation; it raises the loading flag, clears the error, shows the
    loading marker at the container-relative drop point and ends the
    drag, and it leaves the log alone. *)
Theorem accepted_touch_drop_calls_once :
  forall (atob : string -> Result string) (w : World) (touch : Touch)
         (rect : DOMRect) (img : ImageElement) (xp yp : float)
         (file scene : File.t) (product : Product.t),
    productImageFile (present w) = Some file ->
    sceneImage (present w) = Some scene ->
    selectedProduct (present w) = Some product ->
    relativePosition (touchGeometry img rect)
      (clientX touch - left rect)%float (clientY touch - top rect)%float
    = Some (xp, yp) ->
    let dropPoint := {| x := (clientX touch - left rect)%float;
                        y := (clientY touch - top rect)%float |} in
    let w' := run atob [TouchStart touch;
                        TouchEnd touch (Some rect) (Some img)] w in
    calls w'
    = {| objectImage := file;
         objectDescription := Product.name product;
         environmentImage := scene;
         environmentDescription := File.name scene;
         dropPosition := {| xPercent := xp; yPercent := yp |};
         rotation := productRotation (present w) |} :: calls w
    /\ List.length (inFlight w') = S (List.length (inFlight w))
    /\ history (present w') = history (present w)
    /\ historyIndex (present w') = historyIndex (present w)
    /\ isLoading (present w') = true
    /\ error (present w') = None
    /\ displayedOrbPosition (present w') = Some dropPoint
    /\ isDropZone (present w') = false
    /\ isTouchDragging (present w') = false.
Proof.
  intros atob w touch rect img xp yp file scene product
         Hfile Hscene Hsel Hrel dropPoint w'.
  pose proof (touch_drop atob w touch rect img xp yp file scene product
                Hfile Hscene Hsel Hrel) as H.
  cbv zeta in H. unfold run in w'. cbn [fold_left] in w'. fold w' in H.
  destruct H as (Hin & Hcalls & Hh & Hi & _ & _ & _ & Hload & Herr
                 & Horb & Hdrag).
  repeat split; try assumption.
  - rewrite Hin, length_app. cbn. lia.
  - unfold displayedOrbPosition. rewrite Hload. exact Horb.
  - unfold isDropZone. rewrite Hload.
    destruct (sceneImage (present w')); reflexivity.
Qed.

Lemma accepted_touch_drop_calls_once_witness :
  List.length
    (calls
       (run Sample.atob
          [TouchStart {| clientX := 150; clientY := 75 |};
           TouchEnd {| clientX := 150; clientY := 75 |}
             (Some Sample.squareRect) (Some Sample.wideImage)]
          {| present := Sample.session; inFlight := []; calls := [] |}))
  = 1%nat.
Proof.
  pose proof (accepted_touch_drop_calls_once Sample.atob
                {| present := Sample.session; inFlight := []; calls := [] |}
                {| clientX := 150; clientY := 75 |}
                Sample.squareRect Sample.wideImage _ _ _ _ _
                eq_refl eq_refl eq_refl eq_refl) as H.
  cbv zeta in H. destruct H as (H & _). rewrite H. reflexivity.
Defined.

Lemma sceneImage_same_log s s' :
  history s' = history s -> historyIndex s' = historyIndex s ->
  sceneImage s' = sceneImage s.
Proof.
  intros Hh Hi. unfold sceneImage, currentHistoryEntry.
  rewrite Hh, Hi. reflexivity.
Qed.

Lemma buildEntry_fulfilled atob k r now file :
  dataURLtoFile atob (finalImageUrl r)
    ("generated-scene-" ++ numberToString now ++ ".jpeg") = Ok file ->
  buildEntry atob k (Fulfilled r) now
  = Ok (HistoryEntry.mk file (Some (closurePosition k))
          (resultDebugImageUrl r) (finalPrompt r)
          (closureProductRotation k)).
Proof. intros Hfile. unfold buildEntry. rewrite Hfile. reflexivity. Qed.

(** X10: [handleTouchEnd] does not look at the loading flag.  When a
    second touch drop is made while the first generation is still
    running and both generations then succeed, each continuation appends
    to the log as it was when its drop was made: after the first answer
    the log ends with the first composite, after the second answer that
    entry is replaced by the second composite, so two calls leave one new
    entry. *)
Theorem overlapping_drops_keep_only_the_last :
  forall (atob : string -> Result string) (w : World)
         (touch1 touch2 : Touch) (rect1 rect2 : DOMRect)
         (img1 img2 : ImageElement) (xp1 yp1 xp2 yp2 : float)
         (file scene : File.t) (product : Product.t)
         (r1 r2 : CompositeResult) (now1 now2 : Z) (f1 f2 : File.t),
    inFlight w = [] ->
    productImageFile (present w) = Some file ->
    sceneImage (present w) = Some scene ->
    selectedProduct (present w) = Some product ->
    relativePosition (touchGeometry img1 rect1)
      (clientX touch1 - left rect1)%float (clientY touch1 - top rect1)%float
    = Some (xp1, yp1) ->
    relativePosition (touchGeometry img2 rect2)
      (clientX touch2 - left rect2)%float (clientY touch2 - top rect2)%float
    = Some (xp2, yp2) ->
    dataURLtoFile atob (finalImageUrl r1)
      ("generated-scene-" ++ numberToString now1 ++ ".jpeg") = Ok f1 ->
    dataURLtoFile atob (finalImageUrl r2)
      ("generated-scene-" ++ numberToString now2 ++ ".jpeg") = Ok f2 ->
    let drops := [TouchStart touch1;
                  TouchEnd touch1 (Some rect1) (Some img1);
                  TouchStart touch2;
                  TouchEnd touch2 (Some rect2) (Some img2)] in
    let kept :=
      slice0 (history (present w)) (historyIndex (present w) + 1) in
    let entry (f : File.t) (touch : Touch) (rect : DOMRect)
              (r : CompositeResult) :=
      HistoryEntry.mk f
        (Some {| x := (clientX touch - left rect)%float;
                 y := (clientY touch - top rect)%float |})
        (resultDebugImageUrl r) (finalPrompt r)
        (productRotation (present w)) in
    let w1 := run atob (drops ++ [Settle 0 (Fulfilled r1) now1]) w in
    let w2 := run atob (drops ++ [Settle 0 (Fulfilled r1) now1;
                                  Settle 0 (Fulfilled r2) now2]) w in
    List.length (calls w2) = S (S (List.length (calls w)))
    /\ history (present w1) = (kept ++ [entry f1 touch1 rect1 r1])%list
    /\ isLoading (present w1) = false
    /\ List.length (inFlight w1) = 1%nat
    /\ history (present w2) = (kept ++ [entry f2 touch2 rect2 r2])%list
    /\ historyIndex (present w2) = arrayLength kept
    /\ inFlight w2 = [].
Proof.
  intros atob w touch1 touch2 rect1 rect2 img1 img2 xp1 yp1 xp2 yp2
         file scene product r1 r2 now1 now2 f1 f2
         Hempty Hfile Hscene Hsel Hrel1 Hrel2 Hf1 Hf2
         drops kept entry w1 w2.
  subst drops w1 w2. unfold run. cbn [fold_left List.app].
  pose proof (touch_drop atob w touch1 rect1 img1 xp1 yp1 file scene product
                Hfile Hscene Hsel Hrel1) as Ha.
  cbv zeta in Ha.
  set (wa := step atob (step atob w (TouchStart touch1))
               (TouchEnd touch1 (Some rect1) (Some img1))) in *.
  destruct Ha as (Hain & Hacalls & Hah & Hai & Harot & Hafile & Hasel & _).
  pose proof (touch_drop atob wa touch2 rect2 img2 xp2 yp2 file scene product
                Hafile
                (eq_trans (sceneImage_same_log _ _ Hah Hai) Hscene)
                Hasel Hrel2) as Hb.
  cbv zeta in Hb.
  set (wb := step atob (step atob wa (TouchStart touch2))
               (TouchEnd touch2 (Some rect2) (Some img2))) in *.
  destruct Hb as (Hbin & Hbcalls & _).
  rewrite Hain, Hempty in Hbin. rewrite Hah, Hai, Harot in Hbin.
  cbn [List.app] in Hbin.
  match type of Hbin with
  | _ = [?k1; ?k2] => set (ka := k1) in *; set (kb := k2) in *
  end.
  pose proof (settle_success atob wb 0 ka (Fulfilled r1) now1 _
                ltac:(rewrite Hbin; reflexivity)
                (buildEntry_fulfilled atob ka r1 now1 f1 Hf1)) as Hc.
  cbv zeta in Hc.
  set (wc := step atob wb (Settle 0 (Fulfilled r1) now1)) in *.
  destruct Hc as (Hch & _ & _ & _ & Hcload & _ & _ & _ & _ & Hcin & Hccalls).
  rewrite Hbin in Hcin. cbn [removeNth] in Hcin.
  pose proof (settle_success atob wc 0 kb (Fulfilled r2) now2 _
                ltac:(rewrite Hcin; reflexivity)
                (buildEntry_fulfilled atob kb r2 now2 f2 Hf2)) as Hd.
  cbv zeta in Hd.
  set (wd := step atob wc (Settle 0 (Fulfilled r2) now2)) in *.
  destruct Hd as (Hdh & Hdi & _ & _ & _ & _ & _ & _ & _ & Hdin & Hdcalls).
  rewrite Hcin in Hdin. cbn [removeNth] in Hdin.
  repeat split.
  - rewrite Hdcalls, Hccalls, Hbcalls, Hacalls. reflexivity.
  - exact Hch.
  - exact Hcload.
  - rewrite Hcin. reflexivity.
  - exact Hdh.
  - exact Hdi.
  - exact Hdin.
Qed.

Lemma overlapping_drops_keep_only_the_last_witness :
  List.length
    (history
       (present
          (run Sample.atob
             [TouchStart {| clientX := 150; clientY := 75 |};
              TouchEnd {| clientX := 150; clientY := 75 |}
                (Some Sample.squareRect) (Some Sample.wideImage);
              TouchStart {| clientX := 100; clientY := 100 |};
              TouchEnd {| clientX := 100; clientY := 100 |}
                (Some Sample.squareRect) (Some Sample.wideImage);
              Settle 0 (Fulfilled Sample.composite) 1234;
              Settle 0 (Fulfilled Sample.composite) 1235]
             {| present := Sample.session; inFlight := []; calls := [] |})))
  = 4%nat.
Proof.
  pose proof (overlapping_drops_keep_only_the_last Sample.atob
                {| present := Sample.session; inFlight := []; calls := [] |}
                {| clientX := 150; clientY := 75 |}
                {| clientX := 100; clientY := 100 |}
                Sample.squareRect Sample.squareRect
                Sample.wideImage Sample.wideImage
                _ _ _ _ _ _ _
                Sample.composite Sample.composite 1234 1235 _ _
                eq_refl eq_refl eq_refl eq_refl eq_refl eq_refl
                eq_refl eq_refl) as H.
  cbv zeta in H. destruct H as (_ & _ & _ & _ & H & _).
  cbn [List.app] in H. rewrite H. reflexivity.
Defined.

(** X11: an entry records the drop as it was made, not as things are when
    the answer arrives.  If the rotation slider is moved while the
    generation runs, the call and the new entry still carry the rotation
    and the position of the drop, and once the entry is current the
    rotation state is set back to the entry's rotation, so the slider
    value chosen in between is lost. *)
Theorem entry_records_rotation_at_drop :
  forall (atob : string -> Result string) (w : World)
         (position : Point) (rel : RelativePosition) (value : Z)
         (r : CompositeResult) (now : Z) (f : File.t) (call : GenerateCall),
    inFlight w = [] ->
    generationCall position rel (present w) = Some call ->
    dataURLtoFile atob (finalImageUrl r)
      ("generated-scene-" ++ numberToString now ++ ".jpeg") = Ok f ->
    let w' := run atob [ProductDrop position rel;
                        RotationSlider value;
                        Settle 0 (Fulfilled r) now] w in
    calls w' = call :: calls w
    /\ rotation call = productRotation (present w)
    /\ currentHistoryEntry (present w')
       = Some (HistoryEntry.mk f (Some position)
                 (resultDebugImageUrl r) (finalPrompt r)
                 (productRotation (present w)))
    /\ productRotation (present w') = productRotation (present w)
    /\ displayedOrbPosition (present w') = Some position.
Proof.
  intros atob w position rel value r now f call Hempty Hcall Hfile w'.
  subst w'. unfold run. cbn [fold_left].
  set (k := {| closureHistory := history (present w);
               closureHistoryIndex := historyIndex (present w);
               closureProductRotation := productRotation (present w);
               closurePosition := position |}).
  assert (Hdrop :
    step atob w (ProductDrop position rel)
    = {| present := present w |> setLoadingOrbPosition (Some position)
                              |> setIsLoading true
                              |> setError None;
         inFlight := [k];
         calls := call :: calls w |}
    /\ rotation call = productRotation (present w)).
  { cbn [step]. unfold generationCall, handleProductDropCall in *.
    destruct (productImageFile (present w)); [| discriminate].
    destruct (sceneImage (present w)); [| discriminate].
    destruct (selectedProduct (present w)); [| discriminate].
    cbn [snd option_map fst] in Hcall. inversion Hcall; subst call.
    cbn [withCall]. rewrite Hempty. split; reflexivity. }
  destruct Hdrop as [-> Hrot].
  match goal with
  | |- context [step atob ?w1 (RotationSlider value)] =>
      change (step atob w1 (RotationSlider value))
        with {| present := setProductRotation value (present w1);
                inFlight := [k];
                calls := call :: calls w |}
  end.
  match goal with
  | |- context [step atob ?w0 (Settle 0 (Fulfilled r) now)] =>
      pose proof (settle_success atob w0 0 k (Fulfilled r) now _ eq_refl
                    (buildEntry_fulfilled atob k r now f Hfile)) as Hs;
      cbv zeta in Hs;
      set (w2 := step atob w0 (Settle 0 (Fulfilled r) now)) in *
  end.
  destruct Hs as (_ & _ & Hcur & Hrotation & Hload & _ & _ & _ & _ & _
                  & Hcalls).
  repeat split; try assumption.
  unfold displayedOrbPosition, persistedOrbPosition.
  rewrite Hload, Hcur. reflexivity.
Qed.

Lemma entry_records_rotation_at_drop_witness :
  productRotation
    (present
       (run Sample.atob
          [ProductDrop {| x := 150%float; y := 75%float |}
             {| xPercent := 50%float; yPercent := 0%float |};
           RotationSlider 90;
           Settle 0 (Fulfilled Sample.composite) 1234]
          {| present := Sample.session; inFlight := []; calls := [] |}))
  = 0%Z.
Proof.
  pose proof (entry_records_rotation_at_drop Sample.atob
                {| present := Sample.session; inFlight := []; calls := [] |}
                {| x := 150%float; y := 75%float |}
                {| xPercent := 50%float; yPercent := 0%float |}
                90 Sample.composite 1234 _ _
                eq_refl eq_refl eq_refl) as H.
  cbv zeta in H. destruct H as (_ & _ & _ & H & _). exact H.
Defined.

(* ================================================================= *)
(** ** Instant start and loading messages *)

(** X12: [handleInstantStart].  If a fetch is rejected, a response is
    not [ok] or a blob cannot be read, the log and the product stay as
    they were and the error reads "Could not load default images.
    Details: " followed by the reason ("Failed to load default images"
    for a response that is not [ok]).  Otherwise the log becomes the one
    raw entry [scene.jpeg] with the cursor at 0 and nothing to undo or
    redo, whatever it held before; and if the object URL can be made the
    state is the one that uploading that scene and then that product by
    hand gives, on the main screen with product [object.jpeg]. *)
Theorem instant_start_outcomes :
  forall (input : InstantStartInput) (objectURL : Result string) (now : Z)
         (s : AppState),
    let s' := handleInstantStart input objectURL now s in
    (forall err,
       fetchDefaultFiles input = Throw err ->
       history s' = history s
       /\ historyIndex s' = historyIndex s
       /\ selectedProduct s' = selectedProduct s
       /\ productImageFile s' = productImageFile s
       /\ error s'
          = Some ("Could not load default images. Details: "
                    ++ errorMessage err)%string)
    /\ (forall objectResponse sceneResponse,
          responses input = Ok (objectResponse, sceneResponse) ->
          ok objectResponse = false \/ ok sceneResponse = false ->
          fetchDefaultFiles input
          = Throw (ErrorObject "Failed to load default images"))
    /\ (forall objectFile sceneFile,
          fetchDefaultFiles input = Ok (objectFile, sceneFile) ->
          File.name objectFile = "object.jpeg"%string
          /\ File.name sceneFile = "scene.jpeg"%string
          /\ history s' = [HistoryEntry.mk sceneFile None None None 0]
          /\ historyIndex s' = 0%Z
          /\ canUndo s' = false
          /\ canRedo s' = false
          /\ (forall url,
                objectURL = Ok url ->
                s' = handleProductImageUpload objectFile (Ok url) now
                       (handleSceneUpload sceneFile s)
                /\ selectedProduct s'
                   = Some (Product.mk now "object.jpeg" url)
                /\ productImageFile s' = Some objectFile
                /\ productRotation s' = 0%Z
                /\ renderContent s' = MainScreen)).
Proof.
  intros input objectURL now s s'. subst s'.
  unfold handleInstantStart, handleInstantStartSettle.
  split; [| split].
  - intros err Herr. rewrite Herr. repeat split.
  - intros objectResponse sceneResponse Hresp Hbad.
    unfold fetchDefaultFiles. rewrite Hresp.
    destruct Hbad as [-> | ->]; rewrite ?orb_true_r; reflexivity.
  - intros objectFile sceneFile Hfiles. rewrite Hfiles.
    assert (Hnames : File.name objectFile = "object.jpeg"%string
                     /\ File.name sceneFile = "scene.jpeg"%string).
    { unfold fetchDefaultFiles in Hfiles.
      destruct (responses input) as [[r1 r2] |]; [| discriminate].
      destruct (negb (ok r1) || negb (ok r2)); [discriminate |].
      destruct (blobs input) as [[b1 b2] |]; [| discriminate].
      inversion Hfiles. split; reflexivity. }
    destruct Hnames as [Hobject Hscene].
    split; [exact Hobject |]. split; [exact Hscene |].
    unfold handleProductImageUpload, handleSceneUpload.
    destruct objectURL as [url0 | err];
      (split; [reflexivity |]); (split; [reflexivity |]);
      (split; [reflexivity |]); (split; [reflexivity |]);
      intros url Hurl; inversion Hurl; subst url0.
    rewrite Hobject.
    split; [destruct s; reflexivity |]. repeat split.
Qed.

Lemma instant_start_outcomes_witness :
  history
    (handleInstantStart
       {| responses := Ok ({| ok := true |}, {| ok := true |});
          blobs := Ok ("object bytes", "scene bytes")%string |}
       (Ok "blob:object"%string) 7 Sample.session)
  = [HistoryEntry.mk
       (File.mk "scene.jpeg" "image/jpeg" "scene bytes") None None None 0].
Proof.
  pose proof (instant_start_outcomes
                {| responses := Ok ({| ok := true |}, {| ok := true |});
                   blobs := Ok ("object bytes", "scene bytes")%string |}
                (Ok "blob:object"%string) 7 Sample.session) as H.
  cbv zeta in H. destruct H as (_ & _ & H).
  destruct (H _ _ eq_refl) as (_ & _ & Hh & _). exact Hh.
Defined.

(** X13: the loading message index.  After any number of ticks of the
    interval, from the 0 set when loading starts, the index is the number
    of ticks modulo 6, so it always selects one of the six messages and
    the messages come round again every six ticks. *)
Theorem loading_message_index_cycles :
  forall ticks : nat,
    loadingMessageIndexAfter ticks = Z.of_nat (ticks mod 6)
    /\ (exists message,
          arrayGet loadingMessages (loadingMessageIndexAfter ticks)
          = Some message)
    /\ loadingMessageIndexAfter (ticks + 6) = loadingMessageIndexAfter ticks.
Proof.
  assert (Hindex :
    forall ticks, loadingMessageIndexAfter ticks = Z.of_nat (ticks mod 6)).
  { unfold loadingMessageIndexAfter.
    induction ticks as [| ticks IH]; [reflexivity |].
    rewrite Nat.iter_succ, IH. unfold nextLoadingMessageIndex.
    change (arrayLength loadingMessages) with 6%Z.
    rewrite Z.rem_mod_nonneg by lia.
    rewrite !Nat2Z.inj_mod. change (Z.of_nat 6) with 6%Z.
    rewrite Nat2Z.inj_succ, <- Z.add_1_r.
    apply Zplus_mod_idemp_l. }
  intros ticks. split; [apply Hindex |]. split.
  - apply arrayGet_defined. rewrite Hindex.
    change (arrayLength loadingMessages) with 6%Z.
    pose proof (Nat.mod_upper_bound ticks 6). lia.
  - rewrite !Hindex. f_equal.
    rewrite <- (Nat.Div0.add_mod_idemp_r ticks 6 6).
    rewrite Nat.Div0.mod_same, Nat.add_0_r. reflexivity.
Qed.

(* ================================================================= *)
(** ** Data URLs *)

Section DataUrlFacts.

Local Open Scope string_scope.

Lemma stringSplit_nonempty sep s : stringSplit sep s <> [].
Proof.
  destruct s as [| c rest]; cbn [stringSplit]; [discriminate |].
  destruct (Ascii.eqb c sep); [discriminate |].
  destruct (stringSplit sep rest); discriminate.
Qed.

Lemma stringJoin_cons sep piece pieces :
  pieces <> [] ->
  stringJoin sep (piece :: pieces)
  = piece ++ String sep (stringJoin sep pieces).
Proof. destruct pieces; [congruence | reflexivity]. Qed.

Lemma stringSplit_join sep s : stringJoin sep (stringSplit sep s) = s.
Proof.
  induction s as [| c rest IH]; [reflexivity |].
  cbn [stringSplit].
  pose proof (stringSplit_nonempty sep rest) as Hne.
  destruct (Ascii.eqb_spec c sep) as [-> | Hc].
  - rewrite stringJoin_cons by exact Hne. rewrite IH. reflexivity.
  - destruct (stringSplit sep rest) as [| piece pieces]; [congruence |].
    destruct pieces as [| next pieces].
    + cbn in *. congruence.
    + rewrite stringJoin_cons in * by discriminate.
      cbn [String.append]. congruence.
Qed.

Lemma stringSplit_pieces sep s :
  Forall (fun piece => noneOf (isChar sep) piece = true)
    (stringSplit sep s).
Proof.
  induction s as [| c rest IH]; [repeat constructor |].
  cbn [stringSplit]. unfold isChar in *.
  destruct (Ascii.eqb c sep) eqn:Hc.
  - constructor; [reflexivity | exact IH].
  - destruct (stringSplit sep rest) as [| piece pieces];
      [repeat constructor; cbn; rewrite Hc; reflexivity |].
    inversion IH as [| ? ? Hpiece Hpieces]; subst.
    constructor; [| exact Hpieces].
    cbn [noneOf]. rewrite Hc, Hpiece. reflexivity.
Qed.

(** Splitting a text that starts with a separator-free piece. *)
Lemma stringSplit_piece sep piece rest :
  noneOf (isChar sep) piece = true ->
  stringSplit sep (piece ++ String sep rest)
  = piece :: stringSplit sep rest.
Proof.
  unfold isChar. induction piece as [| c piece IH]; intros Hfree.
  - cbn. rewrite Ascii.eqb_refl. reflexivity.
  - cbn in Hfree. apply andb_true_iff in Hfree. destruct Hfree as [Hc Hfree].
    apply negb_true_iff in Hc.
    cbn [String.append stringSplit]. rewrite Hc, (IH Hfree). reflexivity.
Qed.

Lemma stringSplit_free sep piece :
  noneOf (isChar sep) piece = true -> stringSplit sep piece = [piece].
Proof.
  unfold isChar. induction piece as [| c piece IH]; intros Hfree;
    [reflexivity |].
  cbn in Hfree. apply andb_true_iff in Hfree. destruct Hfree as [Hc Hfree].
  apply negb_true_iff in Hc.
  cbn [stringSplit]. rewrite Hc, (IH Hfree). reflexivity.
Qed.

Lemma split_join sep pieces :
  pieces <> [] ->
  Forall (fun piece => noneOf (isChar sep) piece = true) pieces ->
  stringSplit sep (stringJoin sep pieces) = pieces.
Proof.
  induction pieces as [| piece pieces IH]; [congruence |].
  intros _ Hall. inversion Hall as [| ? ? Hpiece Hpieces]; subst.
  destruct pieces as [| next pieces].
  - cbn [stringJoin]. apply stringSplit_free, Hpiece.
  - rewrite stringJoin_cons by discriminate.
    rewrite (stringSplit_piece _ _ _ Hpiece).
    rewrite IH by (try discriminate; exact Hpieces). reflexivity.
Qed.

Lemma lazyUntilSemicolon_found mime rest :
  noneOf endsMime mime = true ->
  lazyUntilSemicolon (mime ++ String ";" rest) = Some mime.
Proof.
  unfold endsMime. induction mime as [| c mime IH]; intros Hfree;
    [reflexivity |].
  cbn in Hfree. apply andb_true_iff in Hfree. destruct Hfree as [Hc Hfree].
  apply negb_true_iff, orb_false_iff in Hc. destruct Hc as [Hsemi Hline].
  cbn [String.append lazyUntilSemicolon].
  rewrite Hsemi, Hline, (IH Hfree). reflexivity.
Qed.

Lemma lazyUntilSemicolon_group s group :
  lazyUntilSemicolon s = Some group -> noneOf endsMime group = true.
Proof.
  unfold endsMime. revert group.
  induction s as [| c s IH]; intros group; cbn [lazyUntilSemicolon];
    [discriminate |].
  destruct (Ascii.eqb c ";") eqn:Hsemi.
  - intros Hg. inversion Hg. reflexivity.
  - destruct (lineTerminator c) eqn:Hline; [discriminate |].
    destruct (lazyUntilSemicolon s) as [g |]; [| discriminate].
    intros Hg. inversion Hg. cbn [noneOf].
    rewrite Hsemi, Hline, (IH g eq_refl). reflexivity.
Qed.

Lemma matchMime_found prefix mime rest :
  noneOf (isChar ":") prefix = true ->
  noneOf endsMime mime = true ->
  matchMime (prefix ++ String ":" (mime ++ String ";" rest)) = Some mime.
Proof.
  unfold isChar. intros Hprefix Hmime.
  induction prefix as [| c prefix IH].
  - cbn. rewrite (lazyUntilSemicolon_found mime rest Hmime). reflexivity.
  - cbn in Hprefix. apply andb_true_iff in Hprefix.
    destruct Hprefix as [Hc Hprefix]. apply negb_true_iff in Hc.
    cbn [String.append matchMime]. rewrite Hc. exact (IH Hprefix).
Qed.

Lemma matchMime_group s group :
  matchMime s = Some group -> noneOf endsMime group = true.
Proof.
  induction s as [| c s IH]; cbn [matchMime]; [discriminate |].
  destruct (Ascii.eqb c ":"); [| exact IH].
  destruct (lazyUntilSemicolon s) as [g |] eqn:Hg; [| exact IH].
  intros Heq. inversion Heq; subst g.
  exact (lazyUntilSemicolon_group s group Hg).
Qed.

Lemma matchMime_no_colon s :
  noneOf (isChar ":") s = true -> matchMime s = None.
Proof.
  unfold isChar. induction s as [| c s IH]; intros Hfree; [reflexivity |].
  cbn in Hfree. apply andb_true_iff in Hfree. destruct Hfree as [Hc Hfree].
  apply negb_true_iff in Hc. cbn [matchMime]. rewrite Hc. exact (IH Hfree).
Qed.

End DataUrlFacts.

(** X19: splitting at a separator and joining with it are inverse to each
    other: the pieces of a text never contain the separator, there is at
    least one, joining them gives the text back, and splitting the join
    of separator-free pieces gives those pieces back. *)
Theorem split_and_join_are_inverse :
  forall (sep : ascii) (s : string) (pieces : list string),
    stringSplit sep s <> []
    /\ Forall (fun piece => noneOf (isChar sep) piece = true)
         (stringSplit sep s)
    /\ stringJoin sep (stringSplit sep s) = s
    /\ (pieces <> [] ->
        Forall (fun piece => noneOf (isChar sep) piece = true) pieces ->
        stringSplit sep (stringJoin sep pieces) = pieces).
Proof.
  intros sep s pieces.
  split; [apply stringSplit_nonempty |].
  split; [apply stringSplit_pieces |].
  split; [apply stringSplit_join |].
  apply split_join.
Qed.

Lemma split_and_join_are_inverse_witness :
  stringSplit ","%char
    (stringJoin ","%char
       ["data:a/b;base64"%string; "AAAA"%string; EmptyString])
  = ["data:a/b;base64"%string; "AAAA"%string; EmptyString].
Proof.
  apply (proj2 (proj2 (proj2
           (split_and_join_are_inverse ","%char EmptyString
              ["data:a/b;base64"%string; "AAAA"%string; EmptyString])))).
  - discriminate.
  - repeat constructor.
Defined.

Lemma lowerCase_char (c : ascii) :
  File.printable c = true ->
  File.printable (File.lowerCase c) = true
  /\ File.upperCase (File.lowerCase c) = false
  /\ endsMime (File.lowerCase c) = endsMime c.
Proof.
  destruct c as [[] [] [] [] [] [] [] []]; vm_compute;
    intros Hprintable; try discriminate Hprintable;
    repeat split; reflexivity.
Qed.

Lemma lowerCase_fixed (c : ascii) :
  File.upperCase c = false -> File.lowerCase c = c.
Proof. unfold File.lowerCase. intros ->. reflexivity. Qed.

Lemma toLowerCase_shape (t : string) :
  File.allPrintable t = true ->
  File.allPrintable (File.toLowerCase t) = true
  /\ noneOf File.upperCase (File.toLowerCase t) = true
  /\ noneOf endsMime (File.toLowerCase t) = noneOf endsMime t.
Proof.
  induction t as [| c t IH]; cbn [File.allPrintable File.toLowerCase noneOf].
  - intros _. repeat split.
  - intros Hall. apply andb_true_iff in Hall. destruct Hall as [Hc Ht].
    destruct (lowerCase_char c Hc) as (-> & -> & ->).
    destruct (IH Ht) as (-> & -> & ->). repeat split.
Qed.

Lemma typeOption_shape (t : string) :
  noneOf endsMime t = true ->
  File.allPrintable (File.typeOption t) = true
  /\ noneOf File.upperCase (File.typeOption t) = true
  /\ noneOf endsMime (File.typeOption t) = true.
Proof.
  intros Hends. unfold File.typeOption.
  destruct (File.allPrintable t) eqn:Hall; [| repeat split].
  destruct (toLowerCase_shape t Hall) as (-> & -> & ->).
  repeat split. exact Hends.
Qed.

Lemma typeOption_fixed (t : string) :
  File.allPrintable t = true -> noneOf File.upperCase t = true ->
  File.typeOption t = t.
Proof.
  unfold File.typeOption. intros -> Hlower.
  induction t as [| c t IH]; [reflexivity |].
  cbn [noneOf] in Hlower. apply andb_true_iff in Hlower.
  destruct Hlower as [Hc Ht]. apply negb_true_iff in Hc.
  cbn [File.toLowerCase]. rewrite (lowerCase_fixed c Hc), (IH Ht).
  reflexivity.
Qed.

(** X20: [dataURLtoFile] on a data URL of the usual form: a header that
    holds, after a prefix without colon, a colon, a non-empty MIME type
    without semicolon or line break and a semicolon, then a comma and the
    payload, the header and the payload being free of commas.  The
    result is what [atob] makes of the payload, as a file with the given
    name and, as type, the MIME type as the [File] constructor
    normalises it (the MIME type itself when it is printable ASCII
    without upper-case letters), or the exception of [atob]; whatever
    follows a second comma is ignored. *)
Theorem dataURLtoFile_wellformed :
  forall (atob : string -> Result string)
         (prefix mime suffix payload extra filename : string),
    noneOf (isChar ":"%char) prefix = true ->
    noneOf (isChar ","%char) prefix = true ->
    mime <> EmptyString ->
    noneOf endsMime mime = true ->
    noneOf (isChar ","%char) mime = true ->
    noneOf (isChar ","%char) suffix = true ->
    noneOf (isChar ","%char) payload = true ->
    let header := (prefix ++ String ":" (mime ++ String ";" suffix))%string in
    let expected :=
      match atob payload with
      | Ok bstr => Ok (File.mk filename (File.typeOption mime) bstr)
      | Throw t => Throw t
      end in
    dataURLtoFile atob (header ++ String "," payload)%string filename
    = expected
    /\ dataURLtoFile atob
         (header ++ String "," (payload ++ String "," extra))%string filename
       = expected
    /\ (File.allPrintable mime = true ->
        noneOf File.upperCase mime = true ->
        File.typeOption mime = mime).
Proof.
  intros atob prefix mime suffix payload extra filename
         Hcolon Hprefix Hmime Hends Hmimec Hsuffix Hpayload header expected.
  assert (Hheader : noneOf (isChar ","%char) header = true).
  { subst header. clear - Hprefix Hmimec Hsuffix. unfold isChar in *.
    induction prefix as [| c prefix IH].
    - cbn. induction mime as [| c mime IHm].
      + cbn. exact Hsuffix.
      + cbn in *. apply andb_true_iff in Hmimec.
        destruct Hmimec as [Hc Hrest]. rewrite Hc. exact (IHm Hrest).
    - cbn in *. apply andb_true_iff in Hprefix.
      destruct Hprefix as [Hc Hrest]. rewrite Hc. exact (IH Hrest). }
  assert (Hmatch : matchMime header = Some mime)
    by (apply matchMime_found; assumption).
  unfold dataURLtoFile.
  rewrite !(stringSplit_piece _ header _ Hheader).
  rewrite (stringSplit_free _ payload Hpayload).
  rewrite (stringSplit_piece _ payload _ Hpayload).
  rewrite Hmatch.
  split; [| split; [| apply typeOption_fixed]];
    (destruct mime as [| c mime]; [congruence | reflexivity]).
Qed.

(** A MIME type written in upper case comes out in lower case. *)
Lemma dataURLtoFile_wellformed_witness :
  dataURLtoFile Sample.atob "data:IMAGE/JPEG;base64,AAAA"%string
    "out.jpeg"%string
  = Ok (File.mk "out.jpeg" "image/jpeg" "AAAA").
Proof.
  exact (proj1 (dataURLtoFile_wellformed Sample.atob
                  "data"%string "IMAGE/JPEG"%string "base64"%string
                  "AAAA"%string EmptyString "out.jpeg"%string
                  eq_refl eq_refl ltac:(discriminate)
                  eq_refl eq_refl eq_refl eq_refl)).
Defined.

(** X21: the failures of [dataURLtoFile] and the shape of its result.  A
    text without comma is refused with "Invalid data URL" and a text
    whose part before the first comma has no colon with "Could not parse
    MIME type from data URL", in both cases without [atob] being called;
    and a file that is returned has the given name, as type the
    normalised form of a non-empty text without semicolon or line break
    (so the type is printable ASCII without upper-case letters,
    semicolon or line break, and it is empty when that text has a
    character outside U+0020 to U+007E), and as content what [atob]
    returned for some text. *)
Theorem dataURLtoFile_failures :
  forall (atob : string -> Result string) (dataurl filename : string),
    (noneOf (isChar ","%char) dataurl = true ->
     dataURLtoFile atob dataurl filename
     = Throw (ErrorObject "Invalid data URL"))
    /\ (forall header rest,
          dataurl = (header ++ String "," rest)%string ->
          noneOf (isChar ","%char) header = true ->
          noneOf (isChar ":"%char) header = true ->
          dataURLtoFile atob dataurl filename
          = Throw (ErrorObject "Could not parse MIME type from data URL"))
    /\ (forall file,
          dataURLtoFile atob dataurl filename = Ok file ->
          File.name file = filename
          /\ (exists mime,
                mime <> EmptyString
                /\ noneOf endsMime mime = true
                /\ File.type file = File.typeOption mime
                /\ (File.allPrintable mime = false ->
                    File.type file = EmptyString))
          /\ File.allPrintable (File.type file) = true
          /\ noneOf File.upperCase (File.type file) = true
          /\ noneOf endsMime (File.type file) = true
          /\ noneOf (isChar ","%char) dataurl = false
          /\ exists payload, atob payload = Ok (File.content file)).
Proof.
  intros atob dataurl filename.
  assert (Hinvalid :
    noneOf (isChar ","%char) dataurl = true ->
    dataURLtoFile atob dataurl filename
    = Throw (ErrorObject "Invalid data URL")).
  { intros Hfree. unfold dataURLtoFile.
    rewrite (stringSplit_free _ dataurl Hfree). reflexivity. }
  split; [exact Hinvalid |]. split.
  - intros header rest -> Hcomma Hcolon. unfold dataURLtoFile.
    rewrite (stringSplit_piece _ header rest Hcomma).
    pose proof (stringSplit_nonempty ","%char rest) as Hne.
    destruct (stringSplit ","%char rest) as [| body others]; [congruence |].
    rewrite (matchMime_no_colon header Hcolon). reflexivity.
  - intros file Hok.
    assert (Hcomma : noneOf (isChar ","%char) dataurl = false).
    { destruct (noneOf (isChar ","%char) dataurl) eqn:Hfree;
        [| reflexivity].
      rewrite (Hinvalid eq_refl) in Hok. discriminate. }
    unfold dataURLtoFile in Hok.
    destruct (stringSplit ","%char dataurl) as [| header [| body others]];
      try discriminate.
    destruct (matchMime header) as [[| c mime] |] eqn:Hmime;
      try discriminate.
    destruct (atob body) as [bstr |] eqn:Hatob; [| discriminate].
    inversion Hok; subst file. cbn [File.name File.type File.content].
    pose proof (matchMime_group header _ Hmime) as Hends.
    destruct (typeOption_shape (String c mime) Hends)
      as (Hprintable & Hlower & Hends').
    split; [reflexivity |]. split.
    { exists (String c mime). split; [discriminate |].
      split; [exact Hends |]. split; [reflexivity |].
      intros Hall. unfold File.typeOption. rewrite Hall. reflexivity. }
    split; [exact Hprintable |]. split; [exact Hlower |].
    split; [exact Hends' |].
    split; [exact Hcomma |]. exists body. exact Hatob.
Qed.

Lemma dataURLtoFile_failures_witness :
  dataURLtoFile Sample.atob "not a data url"%string "out.jpeg"%string
  = Throw (ErrorObject "Invalid data URL").
Proof.
  exact (proj1 (dataURLtoFile_failures Sample.atob
                  "not a data url"%string "out.jpeg"%string) eq_refl).
Defined.

(* ================================================================= *)
(** ** Touch drags *)

(** X22: in every state the component reaches, outside a touch drag
    there is no drag ghost, no hover highlight and no touch marker, and
    the hover highlight is on exactly when there is a touch marker; and
    while no drag is in progress a touch move and a touch end change
    nothing and call nothing, as does a touch start without a selected
    product. *)
Theorem touch_state_consistent :
  forall (atob : string -> Result string) (events : list Event)
         (touch : Touch) (dropZone : option DOMRect)
         (img : option ImageElement),
    let w := run atob events initialWorld in
    let s := present w in
    (isTouchDragging s = false ->
       touchGhostPosition s = None
       /\ isHoveringDropZone s = false
       /\ touchOrbPosition s = None
       /\ handleTouchMove touch dropZone s = s
       /\ handleTouchEnd touch dropZone img s = (s, None)
       /\ calls (step atob w (TouchEnd touch dropZone img)) = calls w)
    /\ (isHoveringDropZone s = true <-> touchOrbPosition s <> None)
    /\ (selectedProduct s = None -> handleTouchStart touch s = s).
Proof.
  intros atob events touch dropZone img w s.
  destruct (run_shape atob events initialWorld initialWorld_shape)
    as (_ & _ & _ & [Hidle Hhover]).
  fold w in Hidle, Hhover. fold s in Hidle, Hhover.
  split; [| split; [exact Hhover |]].
  - intros Hdrag. destruct (Hidle Hdrag) as (Hghost & Hhov & Horb).
    repeat split; try assumption.
    + unfold handleTouchMove. rewrite Hdrag. reflexivity.
    + unfold handleTouchEnd. rewrite Hdrag. reflexivity.
    + cbn [step]. fold s. unfold handleTouchEnd. rewrite Hdrag.
      reflexivity.
  - intros Hsel. unfold handleTouchStart. rewrite Hsel. reflexivity.
Qed.

Lemma touch_state_consistent_witness :
  handleTouchMove {| clientX := 1; clientY := 2 |} (Some Sample.squareRect)
    (present (run Sample.atob Sample.firstPlacement initialWorld))
  = present (run Sample.atob Sample.firstPlacement initialWorld).
Proof.
  destruct (proj1 (touch_state_consistent Sample.atob Sample.firstPlacement
                     {| clientX := 1; clientY := 2 |}
                     (Some Sample.squareRect) None) eq_refl)
    as (_ & _ & _ & H & _).
  exact H.
Defined.

(* ================================================================= *)
(** ** Replacing the scene, and the calls made *)

(** X23: uploading a scene replaces the whole log, whatever it held: the
    log is the one raw entry of the new file with the cursor on it, and
    no sequence of undos and redos afterwards reaches anything else. *)
Theorem scene_upload_discards_history :
  forall (atob : string -> Result string) (w : World) (file : File.t)
         (moves : list Event),
    forallb cursorMove moves = true ->
    let s := present (run atob (SceneUpload file :: moves) w) in
    history s = [HistoryEntry.mk file None None None 0]
    /\ historyIndex s = 0%Z
    /\ currentHistoryEntry s = Some (HistoryEntry.mk file None None None 0)
    /\ canUndo s = false
    /\ canRedo s = false
    /\ productRotation s = 0%Z.
Proof.
  intros atob w file moves Hmoves s. subst s.
  unfold run. cbn [fold_left].
  set (w1 := step atob w (SceneUpload file)).
  assert (H1 :
    history (present w1) = [HistoryEntry.mk file None None None 0]
    /\ historyIndex (present w1) = 0%Z
    /\ productRotation (present w1) = 0%Z)
    by (repeat split).
  clearbody w1. revert w1 H1.
  induction moves as [| ev moves IH]; intros w1 (Hh & Hi & Hr).
  - cbn [fold_left]. unfold currentHistoryEntry, canUndo, canRedo.
    rewrite Hh, Hi. repeat split. exact Hr.
  - cbn [forallb] in Hmoves. apply andb_true_iff in Hmoves.
    destruct Hmoves as [Hev Hmoves]. cbn [fold_left].
    apply (IH Hmoves).
    destruct ev; try discriminate Hev; cbn [step present withApp].
    + unfold handleUndo. rewrite Hi. cbn. unfold afterIndexChange.
      rewrite Z.eqb_refl. repeat split; assumption.
    + unfold handleRedo. rewrite Hi, Hh. cbn. unfold afterIndexChange.
      rewrite Z.eqb_refl. repeat split; assumption.
Qed.

Lemma scene_upload_discards_history_witness :
  canUndo
    (present
       (run Sample.atob
          [SceneUpload (Sample.jpeg "new.jpeg"); Undo; Redo; Undo]
          {| present := Sample.session; inFlight := []; calls := [] |}))
  = false.
Proof.
  pose proof (scene_upload_discards_history Sample.atob
                {| present := Sample.session; inFlight := []; calls := [] |}
                (Sample.jpeg "new.jpeg") [Undo; Redo; Undo] eq_refl) as H.
  cbv zeta in H. destruct H as (_ & _ & _ & H & _). exact H.
Defined.

Lemma step_calls atob w ev :
  calls (step atob w ev) = calls w
  \/ (dropEvent ev = true
      /\ exists call, calls (step atob w ev) = call :: calls w
                      /\ List.length (inFlight (step atob w ev))
                         = S (List.length (inFlight w))).
Proof.
  destruct ev as [file objectURL now | file | | | | | | value
                  | position rel | touch | touch dropZone
                  | touch dropZone img | n settled now];
    cbn [step]; try (left; reflexivity).
  - destruct (handleProductDropCall position rel (present w))
      as [s' [[call k] |]]; cbn [withCall withApp calls inFlight];
      [right | left; reflexivity].
    split; [reflexivity |]. exists call. split; [reflexivity |].
    rewrite length_app. cbn. lia.
  - destruct (handleTouchEnd touch dropZone img (present w))
      as [s' [[call k] |]]; cbn [withCall withApp calls inFlight];
      [right | left; reflexivity].
    split; [reflexivity |]. exists call. split; [reflexivity |].
    rewrite length_app. cbn. lia.
  - destruct (nth_error (inFlight w) n); left; reflexivity.
Qed.

(** X24: [generateCompositeImage] is called by drops only, once per drop
    at most, and never again for a drop that failed: after any sequence
    of events the calls made before are all still recorded, and the
    number of new ones is at most the number of drops in the
    sequence. *)
Theorem calls_only_from_drops :
  forall (atob : string -> Result string) (events : list Event) (w : World),
    exists newCalls,
      calls (run atob events w) = (newCalls ++ calls w)%list
      /\ (List.length newCalls
          <= List.length (filter dropEvent events))%nat.
Proof.
  intros atob events. unfold run.
  induction events as [| ev events IH]; intros w; cbn [fold_left].
  - exists []. split; [reflexivity | cbn; lia].
  - destruct (IH (step atob w ev)) as (newCalls & Hcalls & Hlen).
    destruct (step_calls atob w ev) as [Hsame | (Hdrop & call & Hcall & _)].
    + exists newCalls. rewrite Hcalls, Hsame. split; [reflexivity |].
      cbn [filter]. destruct (dropEvent ev); cbn [List.length]; lia.
    + exists (newCalls ++ [call])%list. rewrite Hcalls, Hcall.
      rewrite <- app_assoc. split; [reflexivity |].
      cbn [filter]. rewrite Hdrop, length_app. cbn [List.length]. lia.
Qed.
